(** * Cyclone: stage workload processing, controller configuration, project listing

    A shallow embedding of three pieces of the Cyclone code base:

    - [pkg/workflow/controller/config.go]: the controller configuration
      ([LoadConfig], [validate]);
    - the workload processor of package [workflowrun] ([Process],
      [processPod], [processDelegation]);
    - the project handler [ListProjects].

    Calls that leave the process (the Kubernetes API, the delegation
    endpoint, the operator of the WorkflowRun, the event recorder) are
    recorded on a trace in program order; what they answer is supplied by
    the environment.  Output through logrus is write-only and is not part
    of the model. *)

From Stdlib Require Import ZArith String Ascii List Bool Lia.
From stdpp Require Import base option list strings gmap.

Local Open Scope string_scope.
Local Open Scope Z_scope.

(** ** Go errors *)

(** An [error] value: [errorString] stands for any error that wraps
    nothing, [wrapError] for the result of [fmt.Errorf] with a [%w] verb. *)
Inductive error : Type :=
| errorString (msg : string)
| wrapError (msg : string) (cause : error).

Definition Error (e : error) : string :=
  match e with
  | errorString msg => msg
  | wrapError msg _ => msg
  end.

Definition Unwrap (e : error) : option error :=
  match e with
  | errorString _ => None
  | wrapError _ cause => Some cause
  end.

(** [fmt.Errorf(prefix + "%w", err)] *)
Definition Errorf_w (prefix : string) (err : error) : error :=
  wrapError (prefix +:+ Error err) err.

(** Outcome of a call that returns [(value, error)]. *)
Inductive result (A : Type) : Type :=
| Ok (a : A)
| Err (e : error).
Arguments Ok {A} a.
Arguments Err {A} e.

(** ** API types of [pkg/apis/cyclone/v1alpha1] *)

Module v1alpha1.

(** Modelled from the spec: the declaration of [StatusPhase] is not part
    of the sources at hand; the data model lists the phases
    [Waiting | Running | Pending | Failed | Succeeded]. *)
Inductive StatusPhase : Type :=
| StatusPending
| StatusRunning
| StatusWaiting
| StatusFailed
| StatusSucceeded.

Definition Time : Type := Z.

Record Status : Type := {
  Phase : StatusPhase;
  Reason : string;
  LastTransitionTime : Time;
  Message : string
}.

Record PodInfo : Type := {
  pi_Name : string;
  pi_Namespace : string
}.

Record StageStatus : Type := {
  ss_Status : Status;
  ss_Pod : option PodInfo
}.

Record WorkflowRunStatus : Type := {
  Stages : gmap string StageStatus
}.

Record WorkflowRun : Type := {
  wfr_Namespace : string;
  wfr_Name : string;
  wfr_Status : WorkflowRunStatus
}.

Record DelegationWorkload : Type := {
  URL : string
}.

Section Stage.
(** The pod workload of a stage is only tested for presence. *)
Context {PodWorkload : Type}.

Record StageSpec : Type := {
  spec_Pod : option PodWorkload;
  spec_Delegation : option DelegationWorkload
}.

Record Stage : Type := {
  stg_Namespace : string;
  stg_Name : string;
  stg_Spec : StageSpec
}.
End Stage.
Global Arguments StageSpec : clear implicits.
Global Arguments Stage : clear implicits.

End v1alpha1.

(** Modelled from the spec: [util.IsPhaseTerminated] is not part of the
    sources at hand; the data model names the terminal phases: [Failed]
    and [Succeeded]. *)
Definition IsPhaseTerminated (phase : v1alpha1.StatusPhase) : bool :=
  match phase with
  | v1alpha1.StatusFailed | v1alpha1.StatusSucceeded => true
  | _ => false
  end.

(** ** [k8s.io/api/core/v1] *)

Module corev1.

Definition EventTypeNormal : string := "Normal".
Definition EventTypeWarning : string := "Warning".

(** Of a pod, the processor reads the name and the namespace. *)
Record Pod : Type := {
  po_Namespace : string;
  po_Name : string
}.

Record ConfigMap : Type := {
  cm_Name : string;
  Data : gmap string string
}.

End corev1.

(** ** Package [workflowrun]: the workload processor *)

Module workflowrun.
Import v1alpha1 corev1.

Section Processor.
Context {PodWorkload Workflow : Type}.

(** [delegation.Request] *)
Record Request : Type := {
  req_Stage : Stage PodWorkload;
  req_Workflow : Workflow;
  req_WorkflowRun : WorkflowRun
}.

(** What the processor does to the outside, in program order. *)
Inductive Op : Type :=
| OpBuild
| OpCreatePod (namespace : string) (po : Pod)
| OpDelegate (req : Request)
| OpGetWorkflowRun (namespace name : string)
| OpEventf (object : WorkflowRun) (eventtype reason message : string)
| OpUpdateStageStatus (stage : string) (status : Status)
| OpUpdateStagePodInfo (stage : string) (podInfo : PodInfo)
| OpGoWork (stage namespace name : string).

(** What the outside answers.  The two operator methods report the
    outcome of their conflict-retry loop; the recorder answers
    nothing. *)
Record Env : Type := {
  pod_Build : Workflow → WorkflowRun → Stage PodWorkload → result Pod;
  pod_ExecutionNamespace : WorkflowRun → string;
  pods_Create : string → Pod → result Pod;
  isExceededQuotaError : error → bool;
  delegation_Delegate : Request → option error;
  workflowRuns_Get : string → string → result WorkflowRun;
  oper_UpdateStageStatus : string → Status → option error;
  oper_UpdateStagePodInfo : string → PodInfo → option error;
  time_Now : Time
}.

Record WorkloadProcessor : Type := {
  wf : Workflow;
  wfr : WorkflowRun;
  stg : Stage PodWorkload
}.

(** A computation appends to the trace and yields a value. *)
Definition M (A : Type) : Type := list Op → A * list Op.

#[local] Instance M_ret : MRet M := λ A a tr, (a, tr).
#[local] Instance M_bind : MBind M :=
  λ A B f m tr, let '(a, tr') := m tr in f a tr'.

Definition call {A : Type} (o : Op) (answer : A) : M A :=
  λ tr, (answer, (tr ++ [o])%list).

Definition run {A : Type} (m : M A) : A * list Op := m [].

Section WithEnv.
Variable env : Env.
Variable p : WorkloadProcessor.

Definition Build : M (result Pod) :=
  call OpBuild (pod_Build env (wf p) (wfr p) (stg p)).

Definition Create (namespace : string) (po : Pod) : M (result Pod) :=
  call (OpCreatePod namespace po) (pods_Create env namespace po).

Definition Delegate (req : Request) : M (option error) :=
  call (OpDelegate req) (delegation_Delegate env req).

Definition Get (namespace name : string) : M (result WorkflowRun) :=
  call (OpGetWorkflowRun namespace name) (workflowRuns_Get env namespace name).

Definition Eventf (eventtype reason message : string) : M unit :=
  call (OpEventf (wfr p) eventtype reason message) tt.

Definition UpdateStageStatus (stage : string) (status : Status) : M (option error) :=
  call (OpUpdateStageStatus stage status) (oper_UpdateStageStatus env stage status).

Definition UpdateStagePodInfo (stage : string) (podInfo : PodInfo) : M (option error) :=
  call (OpUpdateStagePodInfo stage podInfo) (oper_UpdateStagePodInfo env stage podInfo).

(** [go p.podEventWatcher.Work(stage, namespace, name)] *)
Definition GoWork (stage namespace name : string) : M unit :=
  call (OpGoWork stage namespace name) tt.

Definition processPod : M (option error) :=
  r ← Build;
  match r with
  | Err err =>
      Eventf EventTypeWarning "GeneratePodSpecError"
        ("Generate pod for stage '" +:+ stg_Name (stg p) +:+ "' error: " +:+ Error err);;
      UpdateStageStatus (stg_Name (stg p))
        {| Phase := StatusFailed;
           Reason := "GeneratePodError";
           LastTransitionTime := time_Now env;
           Message := "Failed to generate pod: " +:+ Error err |};;
      mret (Some (Errorf_w "create pod manifest: " err))
  | Ok po =>
      r ← Create (pod_ExecutionNamespace env (wfr p)) po;
      match r with
      | Err err =>
          Eventf EventTypeWarning "StagePodCreated"
            ("Create pod for stage '" +:+ stg_Name (stg p) +:+ "' error: " +:+ Error err);;
          let phase :=
            if isExceededQuotaError env err then StatusPending else StatusFailed in
          UpdateStageStatus (stg_Name (stg p))
            {| Phase := phase;
               Reason := "CreatePodError";
               LastTransitionTime := time_Now env;
               Message := "Failed to create pod: " +:+ Error err |};;
          mret (Some (Errorf_w "create pod: " err))
      | Ok po =>
          Eventf EventTypeNormal "StagePodCreated"
            ("Create pod for stage '" +:+ stg_Name (stg p) +:+ "' succeeded");;
          GoWork (stg_Name (stg p)) (po_Namespace po) (po_Name po);;
          UpdateStageStatus (stg_Name (stg p))
            {| Phase := StatusRunning;
               LastTransitionTime := time_Now env;
               Reason := "StagePodCreated";
               Message := "" |};;
          UpdateStagePodInfo (stg_Name (stg p))
            {| pi_Name := po_Name po; pi_Namespace := po_Namespace po |};;
          mret None
      end
  end.

(** [p.stg.Spec.Delegation.URL]; the method is entered with a
    delegation workload present. *)
Definition processDelegation (d : DelegationWorkload) : M (option error) :=
  r ← Delegate {| req_Stage := stg p; req_Workflow := wf p; req_WorkflowRun := wfr p |};
  match r with
  | Some err =>
      Eventf EventTypeWarning "DelegationFailure"
        ("Delegate stage " +:+ stg_Name (stg p) +:+ " to " +:+ URL d
           +:+ " error: " +:+ Error err);;
      UpdateStageStatus (stg_Name (stg p))
        {| Phase := StatusFailed;
           Reason := "DelegationFailure";
           LastTransitionTime := time_Now env;
           Message := "Delegate error: " +:+ Error err |};;
      mret (Some err)
  | None =>
      Eventf EventTypeNormal "DelegationSucceed"
        ("Delegate stage " +:+ stg_Name (stg p) +:+ " to " +:+ URL d +:+ " succeeded");;
      r ← Get (wfr_Namespace (wfr p)) (wfr_Name (wfr p));
      match r with
      | Err err => mret (Some err)
      | Ok latestWfr =>
          let terminated :=
            match Stages (wfr_Status latestWfr) !! stg_Name (stg p) with
            | Some stg => IsPhaseTerminated (Phase (ss_Status stg))
            | None => false
            end in
          if terminated then mret None
          else
            UpdateStageStatus (stg_Name (stg p))
              {| Phase := StatusWaiting;
                 LastTransitionTime := time_Now env;
                 Reason := "DelegationSucceed";
                 Message := "" |};;
            mret None
      end
  end.

Definition Process : M (option error) :=
  let pod := spec_Pod (stg_Spec (stg p)) in
  let delegation := spec_Delegation (stg_Spec (stg p)) in
  if bool_decide (pod ≠ None) && bool_decide (delegation ≠ None) then
    mret (Some (errorString
      ("exact 1 workload (pod or delegation) expected in stage '"
         +:+ stg_Namespace (stg p) +:+ "/" +:+ stg_Name (stg p)
         +:+ "', but got both")))
  else if bool_decide (pod = None) && bool_decide (delegation = None) then
    mret (Some (errorString
      ("exact 1 workload (pod or delegation) expected in stage '"
         +:+ stg_Namespace (stg p) +:+ "/" +:+ stg_Name (stg p)
         +:+ "', but got none")))
  else if bool_decide (pod ≠ None) then processPod
  else
    match delegation with
    | Some d => processDelegation d
    | None => mret None
    end.

End WithEnv.
End Processor.
End workflowrun.

(** ** Package [controller]: the configuration of the workflow controller *)

Module controller.
Import corev1.

Definition ConfigFileKey : string := "workflow-controller.json".
Definition GitResolverImage : string := "git-resolver".
Definition ImageResolverImage : string := "image-resolver".
Definition KvResolverImage : string := "kv-resolver".
Definition CoordinatorImage : string := "coordinator".
Definition GCImage : string := "gc".

Record LoggingConfig : Type := {
  Level : string
}.

(** [DelaySeconds] is a [time.Duration], an [int64]. *)
Record GCConfig : Type := {
  Enabled : bool;
  DelaySeconds : Z;
  RetryCount : Z
}.

Record LimitsConfig : Type := {
  MaxWorkflowRuns : Z
}.

Section Config.
(** [corev1.ResourceRequirements] is a type of Kubernetes. *)
Context {ResourceRequirements : Type}.

Record WorkflowControllerConfig : Type := {
  Images : gmap string string;
  Logging : LoggingConfig;
  GC : GCConfig;
  Limits : LimitsConfig;
  DefaultResourceRequirements : ResourceRequirements;
  PVC : string;
  Secret : string;
  CycloneServerAddr : string
}.

(** The package-level variables that [LoadConfig] writes: [Config],
    and the level of the process-wide logger. *)
Record Globals : Type := {
  Config : WorkflowControllerConfig;
  LoggerLevel : string
}.

(** Modelled from the spec: [InitLogger] is not part of the sources at
    hand; a valid configuration "installs the process-wide logging
    level". *)
Definition InitLogger (logging : LoggingConfig) (g : Globals) : Globals :=
  {| Config := Config g; LoggerLevel := Level logging |}.

(** The loop of [validate] over the required image keys. *)
Fixpoint has_images (images : gmap string string) (keys : list string) : bool :=
  match keys with
  | [] => true
  | k :: keys' =>
      match images !! k with
      | None => false
      | Some _ => has_images images keys'
      end
  end.

(** The two warnings about an empty [PVC] or [Secret] are log output
    only. *)
Definition validate (config : WorkflowControllerConfig) : bool :=
  has_images (Images config)
    [GitResolverImage; ImageResolverImage; KvResolverImage; CoordinatorImage].

Section LoadConfig.
(** [json.Unmarshal(data, &Config)]: given the document and the value
    its destination holds, what the destination holds afterwards and
    the error returned. *)
Variable json_Unmarshal :
  string → WorkflowControllerConfig → WorkflowControllerConfig * option error.

Definition LoadConfig (cm : ConfigMap) (g : Globals) : option error * Globals :=
  match Data cm !! ConfigFileKey with
  | None =>
      (Some (errorString ("ConfigMap '" +:+ cm_Name cm
                            +:+ "' doesn't have data key '" +:+ ConfigFileKey +:+ "'")),
       g)
  | Some data =>
      let '(config, err) := json_Unmarshal data (Config g) in
      let g := {| Config := config; LoggerLevel := LoggerLevel g |} in
      match err with
      | Some err => (Some err, g)
      | None =>
          if negb (validate (Config g))
          then (Some (errorString "validate config failed"), g)
          else (None, InitLogger (Logging (Config g)) g)
      end
  end.
End LoadConfig.
End Config.
Global Arguments WorkflowControllerConfig : clear implicits.
Global Arguments Globals : clear implicits.

Definition DevModeEnvName : string := "DEVELOP_MODE".

(** [corev1.PullPolicy], the two values [ImagePullPolicy] returns. *)
Inductive PullPolicy : Type :=
| PullAlways
| PullIfNotPresent.

(** [os.Getenv] is the environment of the process. *)
Definition ImagePullPolicy (Getenv : string → string) : PullPolicy :=
  if String.eqb (Getenv DevModeEnvName) "true" then PullAlways else PullIfNotPresent.

Section ResolverImageKeys.
(** [v1alpha1.ResourceType] and its three constants are declared outside
    the sources at hand. *)
Context {ResourceType : Type}.
Variables GitResourceType ImageResourceType KVResourceType : ResourceType.

(** The map literal, entry by entry. *)
Definition ResolverImageKeys : list (ResourceType * string) :=
  [(GitResourceType, GitResolverImage);
   (ImageResourceType, ImageResolverImage);
   (KVResourceType, KvResolverImage)].
End ResolverImageKeys.

End controller.

(** ** [encoding/json], as far as [LoadConfig] uses it

    [json.Unmarshal] belongs to the Go library.  [LoadConfig] above takes
    it as a parameter; this module gives the decoder for documents in
    ASCII without [\u] escapes (such an escape is reported as a syntax
    error here).  Error values carry an abbreviated message. *)

Module json.
Import controller.

#[local] Set Warnings "-register-all".
Inductive value : Type :=
| JNull
| JBool (b : bool)
| JNumber (literal : string)
| JString (s : string)
| JArray (elements : list value)
| JObject (members : list (string * value)).

Inductive token : Type :=
| TLBrace | TRBrace | TLBracket | TRBracket | TColon | TComma
| TString (s : string)
| TBare (literal : string).

Definition quote : ascii := "034"%char.
Definition backslash : ascii := "\"%char.

Definition is_space (c : ascii) : bool :=
  (Ascii.eqb c " " || Ascii.eqb c "009" || Ascii.eqb c "010" || Ascii.eqb c "013")%char.

Definition is_control (c : ascii) : bool := (nat_of_ascii c <? 32)%nat.

Definition is_digit (c : ascii) : bool :=
  ((48 <=? nat_of_ascii c) && (nat_of_ascii c <=? 57))%nat.

Definition punct (c : ascii) : option token :=
  (if Ascii.eqb c "{" then Some TLBrace
   else if Ascii.eqb c "}" then Some TRBrace
   else if Ascii.eqb c "[" then Some TLBracket
   else if Ascii.eqb c "]" then Some TRBracket
   else if Ascii.eqb c ":" then Some TColon
   else if Ascii.eqb c "," then Some TComma
   else None)%char.

Definition unescape (c : ascii) : option ascii :=
  (if Ascii.eqb c quote then Some quote
   else if Ascii.eqb c backslash then Some backslash
   else if Ascii.eqb c "/" then Some "/"
   else if Ascii.eqb c "b" then Some "008"
   else if Ascii.eqb c "f" then Some "012"
   else if Ascii.eqb c "n" then Some "010"
   else if Ascii.eqb c "r" then Some "013"
   else if Ascii.eqb c "t" then Some "009"
   else None)%char.

(** The scanner reads one character at a time. *)
Inductive scanning : Type :=
| Between
| InBare (read : list ascii)
| InString (read : list ascii)
| InEscape (read : list ascii).

Definition text (read : list ascii) : string := string_of_list_ascii (rev read).

Fixpoint scan (st : scanning) (cs : list ascii) : option (list token) :=
  match cs with
  | [] =>
      match st with
      | Between => Some []
      | InBare read => Some [TBare (text read)]
      | InString _ | InEscape _ => None
      end
  | c :: cs' =>
      match st with
      | InString read =>
          if Ascii.eqb c quote then cons (TString (text read)) <$> scan Between cs'
          else if Ascii.eqb c backslash then scan (InEscape read) cs'
          else if is_control c then None
          else scan (InString (c :: read)) cs'
      | InEscape read =>
          match unescape c with
          | Some c' => scan (InString (c' :: read)) cs'
          | None => None
          end
      | Between | InBare _ =>
          let flush (ts : list token) : list token :=
            match st with
            | InBare read => TBare (text read) :: ts
            | _ => ts
            end in
          if is_space c then flush <$> scan Between cs'
          else if Ascii.eqb c quote then flush <$> scan (InString []) cs'
          else
            match punct c with
            | Some t => (λ ts, flush (t :: ts)) <$> scan Between cs'
            | None =>
                match st with
                | InBare read => scan (InBare (c :: read)) cs'
                | _ => scan (InBare [c]) cs'
                end
            end
      end
  end.

Fixpoint skip_digits (cs : list ascii) : list ascii :=
  match cs with
  | c :: cs' => if is_digit c then skip_digits cs' else cs
  | [] => []
  end.

Definition is_exponent (cs : list ascii) : bool :=
  match cs with
  | [] => true
  | e :: cs' =>
      (Ascii.eqb e "e" || Ascii.eqb e "E")%char &&
      let cs' :=
        match cs' with
        | s :: r => if (Ascii.eqb s "+" || Ascii.eqb s "-")%char then r else cs'
        | [] => []
        end in
      match cs' with
      | d :: r => is_digit d && bool_decide (skip_digits r = [])
      | [] => false
      end
  end.

Definition is_fraction_exponent (cs : list ascii) : bool :=
  match cs with
  | dot :: d :: r =>
      if Ascii.eqb dot "."%char then is_digit d && is_exponent (skip_digits r)
      else is_exponent cs
  | _ => is_exponent cs
  end.

(** The grammar of a JSON number. *)
Definition is_number (cs : list ascii) : bool :=
  let cs := match cs with
            | m :: r => if Ascii.eqb m "-"%char then r else cs
            | [] => []
            end in
  match cs with
  | d :: r =>
      if Ascii.eqb d "0"%char then is_fraction_exponent r
      else is_digit d && is_fraction_exponent (skip_digits r)
  | [] => false
  end.

Definition bare (literal : string) : option value :=
  if String.eqb literal "true" then Some (JBool true)
  else if String.eqb literal "false" then Some (JBool false)
  else if String.eqb literal "null" then Some JNull
  else if is_number (list_ascii_of_string literal) then Some (JNumber literal)
  else None.

Fixpoint parse_value (fuel : nat) (ts : list token) : option (value * list token) :=
  match fuel with
  | O => None
  | S fuel =>
      match ts with
      | TBare literal :: ts' => (λ v, (v, ts')) <$> bare literal
      | TString s :: ts' => Some (JString s, ts')
      | TLBracket :: TRBracket :: ts' => Some (JArray [], ts')
      | TLBracket :: ts' => parse_elements fuel ts' []
      | TLBrace :: TRBrace :: ts' => Some (JObject [], ts')
      | TLBrace :: ts' => parse_members fuel ts' []
      | _ => None
      end
  end
with parse_elements (fuel : nat) (ts : list token) (read : list value)
  : option (value * list token) :=
  match fuel with
  | O => None
  | S fuel =>
      match parse_value fuel ts with
      | Some (v, TComma :: ts') => parse_elements fuel ts' (v :: read)
      | Some (v, TRBracket :: ts') => Some (JArray (rev (v :: read)), ts')
      | _ => None
      end
  end
with parse_members (fuel : nat) (ts : list token) (read : list (string * value))
  : option (value * list token) :=
  match fuel with
  | O => None
  | S fuel =>
      match ts with
      | TString k :: TColon :: ts' =>
          match parse_value fuel ts' with
          | Some (v, TComma :: ts'') => parse_members fuel ts'' ((k, v) :: read)
          | Some (v, TRBrace :: ts'') => Some (JObject (rev ((k, v) :: read)), ts'')
          | _ => None
          end
      | _ => None
      end
  end.

(** A document is one value and nothing after it.  [parse_value] takes
    a token at every call and the other two are entered once per value,
    so twice the number of tokens is fuel enough. *)
Definition parse (data : string) : option value :=
  ts ← scan Between (list_ascii_of_string data);
  match parse_value (2 * length ts + 2) ts with
  | Some (v, []) => Some v
  | _ => None
  end.

(** *** Decoding into Go values

    A value of the wrong kind leaves its destination as it is and is
    remembered as the error to return; decoding goes on, and the first
    such error is the one returned. *)

Definition saveError (saved new : option error) : option error :=
  match saved with
  | Some _ => saved
  | None => new
  end.

Definition describe (v : value) : string :=
  match v with
  | JNull => "null"
  | JBool _ => "bool"
  | JNumber literal => "number " +:+ literal
  | JString _ => "string"
  | JArray _ => "array"
  | JObject _ => "object"
  end.

Definition UnmarshalTypeError (v : value) (type : string) : error :=
  errorString ("json: cannot unmarshal " +:+ describe v
                 +:+ " into Go value of type " +:+ type).

Definition SyntaxError : error := errorString "json: syntax error".

Definition decode_string (v : value) (old : string) : string * option error :=
  match v with
  | JString s => (s, None)
  | JNull => (old, None)
  | _ => (old, Some (UnmarshalTypeError v "string"))
  end.

Definition decode_bool (v : value) (old : bool) : bool * option error :=
  match v with
  | JBool b => (b, None)
  | JNull => (old, None)
  | _ => (old, Some (UnmarshalTypeError v "bool"))
  end.

Definition digit_value (c : ascii) : Z := Z.of_nat (nat_of_ascii c) - 48.

(** [strconv.ParseInt(literal, 10, 64)] on a JSON number. *)
Definition ParseInt (literal : string) : option Z :=
  let cs := list_ascii_of_string literal in
  let '(negative, ds) :=
    match cs with
    | m :: r => if Ascii.eqb m "-"%char then (true, r) else (false, cs)
    | [] => (false, [])
    end in
  if bool_decide (ds ≠ []) && forallb is_digit ds then
    let n := fold_left (λ acc d, 10 * acc + digit_value d) ds 0 in
    let n := if negative then - n else n in
    if (- 2 ^ 63 <=? n) && (n <=? 2 ^ 63 - 1) then Some n else None
  else None.

Definition decode_int (type : string) (v : value) (old : Z) : Z * option error :=
  match v with
  | JNumber literal =>
      match ParseInt literal with
      | Some n => (n, None)
      | None => (old, Some (UnmarshalTypeError v type))
      end
  | JNull => (old, None)
  | _ => (old, Some (UnmarshalTypeError v type))
  end.

(** A JSON object is added to the map the destination holds; every
    member is stored, a member of the wrong kind as the empty string. *)
Definition decode_map (v : value) (old : gmap string string)
  : gmap string string * option error :=
  match v with
  | JObject members =>
      fold_left
        (λ '(m, err) '(k, x),
           let '(s, e) := decode_string x "" in (<[k := s]> m, saveError err e))
        members (old, None)
  | JNull => (∅, None)
  | _ => (old, Some (UnmarshalTypeError v "map[string]string"))
  end.

Definition lower (c : ascii) : ascii :=
  let n := nat_of_ascii c in
  if ((65 <=? n) && (n <=? 90))%nat then ascii_of_nat (n + 32) else c.

Definition fold (s : string) : string :=
  string_of_list_ascii (map lower (list_ascii_of_string s)).

(** The field a key names: the one whose name is the key, else one
    whose name is the key up to the case of letters. *)
Definition field (key : string) (names : list string) : option string :=
  match List.find (String.eqb key) names with
  | Some name => Some name
  | None => List.find (λ name, String.eqb (fold key) (fold name)) names
  end.

(** Decoding a struct: the members of the object in turn, each into
    the field it names; other members are skipped. *)
Definition decode_struct {A : Type} (type : string) (names : list string)
    (member : string → value → A → A * option error)
    (v : value) (old : A) : A * option error :=
  match v with
  | JObject members =>
      fold_left
        (λ '(a, err) '(k, x),
           match field k names with
           | Some name => let '(a', e) := member name x a in (a', saveError err e)
           | None => (a, err)
           end)
        members (old, None)
  | JNull => (old, None)
  | _ => (old, Some (UnmarshalTypeError v type))
  end.

Definition decode_LoggingConfig : value → LoggingConfig → LoggingConfig * option error :=
  decode_struct "controller.LoggingConfig" ["level"]
    (λ name x c,
       let '(s, e) := decode_string x (Level c) in ({| Level := s |}, e)).

Definition decode_GCConfig : value → GCConfig → GCConfig * option error :=
  decode_struct "controller.GCConfig" ["enabled"; "delay_seconds"; "retry"]
    (λ name x c,
       if String.eqb name "enabled" then
         let '(b, e) := decode_bool x (Enabled c) in
         ({| Enabled := b; DelaySeconds := DelaySeconds c; RetryCount := RetryCount c |}, e)
       else if String.eqb name "delay_seconds" then
         let '(n, e) := decode_int "time.Duration" x (DelaySeconds c) in
         ({| Enabled := Enabled c; DelaySeconds := n; RetryCount := RetryCount c |}, e)
       else
         let '(n, e) := decode_int "int" x (RetryCount c) in
         ({| Enabled := Enabled c; DelaySeconds := DelaySeconds c; RetryCount := n |}, e)).

Definition decode_LimitsConfig : value → LimitsConfig → LimitsConfig * option error :=
  decode_struct "controller.LimitsConfig" ["max_workflowruns"]
    (λ name x c,
       let '(n, e) := decode_int "int" x (MaxWorkflowRuns c) in
       ({| MaxWorkflowRuns := n |}, e)).

Section Unmarshal.
Context {ResourceRequirements : Type}.
(** How Kubernetes decodes a [corev1.ResourceRequirements]. *)
Variable decode_ResourceRequirements :
  value → ResourceRequirements → ResourceRequirements * option error.

#[local] Abbreviation Cfg := (WorkflowControllerConfig ResourceRequirements).

Definition decode_member (name : string) (x : value) (c : Cfg) : Cfg * option error :=
  let upd images logging gc limits quota pvc secret addr : Cfg :=
    {| Images := images; Logging := logging; GC := gc; Limits := limits;
       DefaultResourceRequirements := quota; PVC := pvc; Secret := secret;
       CycloneServerAddr := addr |} in
  let same := upd (Images c) (Logging c) (GC c) (Limits c)
                  (DefaultResourceRequirements c) (PVC c) (Secret c) in
  if String.eqb name "images" then
    let '(y, e) := decode_map x (Images c) in
    (upd y (Logging c) (GC c) (Limits c) (DefaultResourceRequirements c)
         (PVC c) (Secret c) (CycloneServerAddr c), e)
  else if String.eqb name "logging" then
    let '(y, e) := decode_LoggingConfig x (Logging c) in
    (upd (Images c) y (GC c) (Limits c) (DefaultResourceRequirements c)
         (PVC c) (Secret c) (CycloneServerAddr c), e)
  else if String.eqb name "gc" then
    let '(y, e) := decode_GCConfig x (GC c) in
    (upd (Images c) (Logging c) y (Limits c) (DefaultResourceRequirements c)
         (PVC c) (Secret c) (CycloneServerAddr c), e)
  else if String.eqb name "limits" then
    let '(y, e) := decode_LimitsConfig x (Limits c) in
    (upd (Images c) (Logging c) (GC c) y (DefaultResourceRequirements c)
         (PVC c) (Secret c) (CycloneServerAddr c), e)
  else if String.eqb name "default_resource_quota" then
    let '(y, e) := decode_ResourceRequirements x (DefaultResourceRequirements c) in
    (upd (Images c) (Logging c) (GC c) (Limits c) y
         (PVC c) (Secret c) (CycloneServerAddr c), e)
  else if String.eqb name "pvc" then
    let '(y, e) := decode_string x (PVC c) in
    (upd (Images c) (Logging c) (GC c) (Limits c) (DefaultResourceRequirements c)
         y (Secret c) (CycloneServerAddr c), e)
  else if String.eqb name "secret" then
    let '(y, e) := decode_string x (Secret c) in
    (upd (Images c) (Logging c) (GC c) (Limits c) (DefaultResourceRequirements c)
         (PVC c) y (CycloneServerAddr c), e)
  else
    let '(y, e) := decode_string x (CycloneServerAddr c) in
    (same y, e).

(** [json.Unmarshal(data, &config)]: the document is checked as a
    whole before anything is stored. *)
Definition Unmarshal (data : string) (config : Cfg) : Cfg * option error :=
  match parse data with
  | None => (config, Some SyntaxError)
  | Some v =>
      decode_struct "controller.WorkflowControllerConfig"
        ["images"; "logging"; "gc"; "limits"; "default_resource_quota";
         "pvc"; "secret"; "cyclone_server_addr"]
        decode_member v config
  end.
End Unmarshal.

End json.

(** ** The project handler *)

Module handler.

(** [int64] arithmetic wraps around. *)
Definition int64 (z : Z) : Z := (z + 2 ^ 63) mod 2 ^ 64 - 2 ^ 63.

(** [types.QueryParams]: [Start] and [Limit] are compared and added to
    an [int64] in [ListProjects], so they are [int64] themselves. *)
Record QueryParams : Type := {
  Start : Z;
  Limit : Z
}.

(** [types.ListResponse], as [types.NewListResponse(total, items)]
    builds it. *)
Record ListResponse (A : Type) : Type := NewListResponse {
  Total : Z;
  Items : list A
}.
Global Arguments NewListResponse {A} _ _.
Global Arguments Total {A} _.
Global Arguments Items {A} _.

(** A call returns, or panics. *)
Inductive outcome (A : Type) : Type :=
| Returns (r : result A)
| Panics.
Global Arguments Returns {A} r.
Global Arguments Panics {A}.

(** The slice expression [items[low:high]].  Go checks
    [0 <= low <= high <= cap(items)]; a list has its length for
    capacity, and [ListProjects] never asks for more than the length. *)
Definition slice {A : Type} (items : list A) (low high : Z) : option (list A) :=
  if (0 <=? low) && (low <=? high) && (high <=? Z.of_nat (length items))
  then Some (take (Z.to_nat (high - low)) (drop (Z.to_nat low) items))
  else None.

Section ListProjects.
Context {Project : Type}.
(** [common.TenantNamespace], and the answer of the cluster to
    [Projects(namespace).List]. *)
Variable TenantNamespace : string → string.
Variable Projects_List : string → result (list Project).

Definition ListProjects (tenant : string) (query : QueryParams)
  : outcome (ListResponse Project) :=
  match Projects_List (TenantNamespace tenant) with
  | Err err => Returns (Err err)
  | Ok items =>
      let size := Z.of_nat (length items) in
      if Start query >=? size then Returns (Ok (NewListResponse size []))
      else
        let end_ := int64 (Start query + Limit query) in
        let end_ := if end_ >? size then size else end_ in
        match slice items (Start query) end_ with
        | Some page => Returns (Ok (NewListResponse size page))
        | None => Panics
        end
  end.
End ListProjects.

(** *** The handlers that write

    Of a [v1alpha1.Project] the handlers read and write the spec, the
    annotations and the labels; [pj_Meta] is the rest of the object (type,
    name, resource version and so on). *)
Section Projects.
Context {Meta ProjectSpec : Type}.

Record Project : Type := {
  pj_Meta : Meta;
  pj_Annotations : gmap string string;
  pj_Labels : gmap string string;
  pj_Spec : ProjectSpec
}.

(** The requests sent to the cluster, in order. *)
Inductive Call : Type :=
| CallCreate (namespace : string) (project : Project)
| CallGet (namespace name : string)
| CallUpdate (namespace : string) (project : Project)
| CallDelete (namespace name : string).

(** The cluster answers a request knowing the requests before it.
    [ConvertK8sError], [MergeMap], [TenantNamespace] and
    [GenerateNameModifier] are functions of the repository declared
    outside the sources at hand; [IsConflict] is [errors.IsConflict] of
    Kubernetes. *)
Record Cluster : Type := {
  Projects_Create : list Call → string → Project → result Project;
  Projects_Get : list Call → string → string → result Project;
  Projects_Update : list Call → string → Project → result Project;
  Projects_Delete : list Call → string → string → option error;
  IsConflict : error → bool;
  ConvertK8sError : option error → option error;
  MergeMap : gmap string string → gmap string string → gmap string string;
  TenantNamespace : string → string;
  GenerateNameModifier : string → string → string → Project → Project * option error
}.

Definition Handler (A : Type) : Type := list Call → A * list Call.

#[local] Instance Handler_ret : MRet Handler := λ A a tr, (a, tr).
#[local] Instance Handler_bind : MBind Handler :=
  λ A B f m tr, let '(a, tr') := m tr in f a tr'.

Definition request {A : Type} (c : Call) (answer : list Call → A) : Handler A :=
  λ tr, (answer tr, (tr ++ [c])%list).

Definition serve {A : Type} (m : Handler A) : A * list Call := m [].

Section WithCluster.
Variable k8s : Cluster.

(** A [CreationModifier] changes the project it is handed and may fail. *)
Definition CreationModifier : Type :=
  string → string → string → Project → Project * option error.

(** The loop of [CreateProject] over the modifiers. *)
Fixpoint modify (modifiers : list CreationModifier) (tenant : string) (project : Project)
  : Project * option error :=
  match modifiers with
  | [] => (project, None)
  | modifier :: modifiers' =>
      let '(project', err) := modifier tenant "" "" project in
      match err with
      | Some err => (project', Some err)
      | None => modify modifiers' tenant project'
      end
  end.

(** The answer of the cluster is returned as it is. *)
Definition CreateProject (tenant : string) (project : Project) : Handler (result Project) :=
  let '(project', err) := modify [GenerateNameModifier k8s] tenant project in
  match err with
  | Some err => mret (Err err)
  | None =>
      request (CallCreate (TenantNamespace k8s tenant) project')
        (λ tr, Projects_Create k8s tr (TenantNamespace k8s tenant) project')
  end.

Definition GetProject (tenant name : string) : Handler (option Project * option error) :=
  r ← request (CallGet (TenantNamespace k8s tenant) name)
        (λ tr, Projects_Get k8s tr (TenantNamespace k8s tenant) name);
  match r with
  | Err err => mret (None, ConvertK8sError k8s (Some err))
  | Ok project => mret (Some project, None)
  end.

(** [retry.DefaultRetry.Steps] *)
Definition DefaultRetry_Steps : nat := 5.

(** [retry.RetryOnConflict]: [fn] is run until it succeeds or fails
    with something else than a conflict, [steps] times at most; when the
    steps are used up the last conflict is the error. *)
Fixpoint RetryOnConflict (steps : nat) (lastConflictErr : option error)
    (fn : Handler (option error)) : Handler (option error) :=
  match steps with
  | O => mret lastConflictErr
  | S steps' =>
      err ← fn;
      match err with
      | None => mret None
      | Some err =>
          if IsConflict k8s err then RetryOnConflict steps' (Some err) fn
          else mret (Some err)
      end
  end.

(** What [UpdateProject] writes over the project it has read;
    [MergeMap] is taken as a function of its two arguments. *)
Definition overwrite (project origin : Project) : Project :=
  {| pj_Meta := pj_Meta origin;
     pj_Annotations := MergeMap k8s (pj_Annotations project) (pj_Annotations origin);
     pj_Labels := MergeMap k8s (pj_Labels project) (pj_Labels origin);
     pj_Spec := pj_Spec project |}.

(** The function [UpdateProject] retries. *)
Definition update_once (tenant pName : string) (project : Project) : Handler (option error) :=
  r ← request (CallGet (TenantNamespace k8s tenant) pName)
        (λ tr, Projects_Get k8s tr (TenantNamespace k8s tenant) pName);
  match r with
  | Err err => mret (Some err)
  | Ok origin =>
      let newProject := overwrite project origin in
      r ← request (CallUpdate (TenantNamespace k8s tenant) newProject)
            (λ tr, Projects_Update k8s tr (TenantNamespace k8s tenant) newProject);
      match r with
      | Err err => mret (Some err)
      | Ok _ => mret None
      end
  end.

Definition UpdateProject (tenant pName : string) (project : Project)
  : Handler (option Project * option error) :=
  err ← RetryOnConflict DefaultRetry_Steps None (update_once tenant pName project);
  match err with
  | Some err => mret (None, ConvertK8sError k8s (Some err))
  | None => mret (Some project, None)
  end.

Definition DeleteProject (tenant project : string) : Handler (option error) :=
  err ← request (CallDelete (TenantNamespace k8s tenant) project)
          (λ tr, Projects_Delete k8s tr (TenantNamespace k8s tenant) project);
  mret (ConvertK8sError k8s err).

End WithCluster.
End Projects.

End handler.

(** ** Reading a trace *)

Section Observations.
Import v1alpha1 corev1 workflowrun.
Context {PodWorkload Workflow : Type}.
#[local] Abbreviation Op := (@workflowrun.Op PodWorkload Workflow).
#[local] Abbreviation Env := (@workflowrun.Env PodWorkload Workflow).
#[local] Abbreviation Processor := (@workflowrun.WorkloadProcessor PodWorkload Workflow).

(** The status writes handed to the operator, in order. *)
Definition status_writes (tr : list Op) : list (string * Status) :=
  omap (λ o, match o with
             | OpUpdateStageStatus stage status => Some (stage, status)
             | _ => None
             end) tr.

Definition podinfo_writes (tr : list Op) : list (string * PodInfo) :=
  omap (λ o, match o with
             | OpUpdateStagePodInfo stage podInfo => Some (stage, podInfo)
             | _ => None
             end) tr.

(** The events handed to the recorder: type, reason, message. *)
Definition events (tr : list Op) : list (string * string * string) :=
  omap (λ o, match o with
             | OpEventf _ eventtype reason message => Some (eventtype, reason, message)
             | _ => None
             end) tr.

(** [a] is issued before [b]. *)
Definition precedes (a b : Op) (tr : list Op) : Prop :=
  ∃ l1 l2 l3 : list Op, tr = (l1 ++ a :: l2 ++ b :: l3)%list.

(** The same surroundings with another operator. *)
Definition with_operator (env : Env)
    (updateStageStatus : string → Status → option error)
    (updateStagePodInfo : string → PodInfo → option error) : Env :=
  {| pod_Build := pod_Build env;
     pod_ExecutionNamespace := pod_ExecutionNamespace env;
     pods_Create := pods_Create env;
     isExceededQuotaError := isExceededQuotaError env;
     delegation_Delegate := delegation_Delegate env;
     workflowRuns_Get := workflowRuns_Get env;
     oper_UpdateStageStatus := updateStageStatus;
     oper_UpdateStagePodInfo := updateStagePodInfo;
     time_Now := time_Now env |}.

(** The stage is one that [Process] hands to [processPod] and the pod
    gets created. *)
Definition pod_created (env : Env) (p : Processor) : Prop :=
  spec_Pod (stg_Spec (stg p)) ≠ None ∧ spec_Delegation (stg_Spec (stg p)) = None ∧
  ∃ po po', pod_Build env (wf p) (wfr p) (stg p) = Ok po ∧
            pods_Create env (pod_ExecutionNamespace env (wfr p)) po = Ok po'.

(** What the re-read says about the stage: [true] when it is there in
    a terminal phase. *)
Definition reported_terminated (p : Processor) (latestWfr : WorkflowRun) : bool :=
  match Stages (wfr_Status latestWfr) !! stg_Name (stg p) with
  | Some reported => IsPhaseTerminated (Phase (ss_Status reported))
  | None => false
  end.

(** Exactly one workload is set: the stage passes the check at the
    head of [Process]. *)
Definition one_workload (p : Processor) : Prop :=
  (spec_Pod (stg_Spec (stg p)) ≠ None ∧ spec_Delegation (stg_Spec (stg p)) = None) ∨
  (spec_Pod (stg_Spec (stg p)) = None ∧ spec_Delegation (stg_Spec (stg p)) ≠ None).

(** An error past that check is returned only after a status in phase
    [Failed] has been handed to the operator. *)
Definition failure_recorded (env : Env) (p : Processor) : Prop :=
  one_workload p →
  ∀ err, (run (Process env p)).1 = Some err →
    ∃ status, (stg_Name (stg p), status) ∈ status_writes (run (Process env p)).2 ∧
              Phase status = StatusFailed.

#[local] Abbreviation request p :=
  {| req_Stage := stg p; req_Workflow := wf p; req_WorkflowRun := wfr p |}.

(** The paths of [Process], each with the status and pod-info writes it
    makes and what it returns. *)
Inductive path (env : Env) (p : Processor)
  : option error → list (string * Status) → list (string * PodInfo) → Prop :=
| path_both :
    spec_Pod (stg_Spec (stg p)) ≠ None → spec_Delegation (stg_Spec (stg p)) ≠ None →
    ∀ message, path env p (Some (errorString message)) [] []
| path_none :
    spec_Pod (stg_Spec (stg p)) = None → spec_Delegation (stg_Spec (stg p)) = None →
    ∀ message, path env p (Some (errorString message)) [] []
| path_build_failed cause :
    spec_Pod (stg_Spec (stg p)) ≠ None → spec_Delegation (stg_Spec (stg p)) = None →
    pod_Build env (wf p) (wfr p) (stg p) = Err cause →
    path env p (Some (Errorf_w "create pod manifest: " cause))
      [(stg_Name (stg p),
        {| Phase := StatusFailed; Reason := "GeneratePodError";
           LastTransitionTime := time_Now env;
           Message := "Failed to generate pod: " +:+ Error cause |})] []
| path_create_failed po cause :
    spec_Pod (stg_Spec (stg p)) ≠ None → spec_Delegation (stg_Spec (stg p)) = None →
    pod_Build env (wf p) (wfr p) (stg p) = Ok po →
    pods_Create env (pod_ExecutionNamespace env (wfr p)) po = Err cause →
    path env p (Some (Errorf_w "create pod: " cause))
      [(stg_Name (stg p),
        {| Phase := if isExceededQuotaError env cause then StatusPending else StatusFailed;
           Reason := "CreatePodError";
           LastTransitionTime := time_Now env;
           Message := "Failed to create pod: " +:+ Error cause |})] []
| path_created po po' :
    spec_Pod (stg_Spec (stg p)) ≠ None → spec_Delegation (stg_Spec (stg p)) = None →
    pod_Build env (wf p) (wfr p) (stg p) = Ok po →
    pods_Create env (pod_ExecutionNamespace env (wfr p)) po = Ok po' →
    path env p None
      [(stg_Name (stg p),
        {| Phase := StatusRunning; Reason := "StagePodCreated";
           LastTransitionTime := time_Now env; Message := "" |})]
      [(stg_Name (stg p), {| pi_Name := po_Name po'; pi_Namespace := po_Namespace po' |})]
| path_delegation_failed cause :
    spec_Pod (stg_Spec (stg p)) = None → spec_Delegation (stg_Spec (stg p)) ≠ None →
    delegation_Delegate env (request p) = Some cause →
    path env p (Some cause)
      [(stg_Name (stg p),
        {| Phase := StatusFailed; Reason := "DelegationFailure";
           LastTransitionTime := time_Now env;
           Message := "Delegate error: " +:+ Error cause |})] []
| path_reread_failed cause :
    spec_Pod (stg_Spec (stg p)) = None → spec_Delegation (stg_Spec (stg p)) ≠ None →
    delegation_Delegate env (request p) = None →
    workflowRuns_Get env (wfr_Namespace (wfr p)) (wfr_Name (wfr p)) = Err cause →
    path env p (Some cause) [] []
| path_terminated latestWfr :
    spec_Pod (stg_Spec (stg p)) = None → spec_Delegation (stg_Spec (stg p)) ≠ None →
    delegation_Delegate env (request p) = None →
    workflowRuns_Get env (wfr_Namespace (wfr p)) (wfr_Name (wfr p)) = Ok latestWfr →
    reported_terminated p latestWfr = true →
    path env p None [] []
| path_waiting latestWfr :
    spec_Pod (stg_Spec (stg p)) = None → spec_Delegation (stg_Spec (stg p)) ≠ None →
    delegation_Delegate env (request p) = None →
    workflowRuns_Get env (wfr_Namespace (wfr p)) (wfr_Name (wfr p)) = Ok latestWfr →
    reported_terminated p latestWfr = false →
    path env p None
      [(stg_Name (stg p),
        {| Phase := StatusWaiting; Reason := "DelegationSucceed";
           LastTransitionTime := time_Now env; Message := "" |})] [].
End Observations.

Section MoreObservations.
Import v1alpha1 corev1 workflowrun.
Context {PodWorkload Workflow : Type}.
#[local] Abbreviation Op := (@workflowrun.Op PodWorkload Workflow).
#[local] Abbreviation Env := (@workflowrun.Env PodWorkload Workflow).
#[local] Abbreviation Processor := (@workflowrun.WorkloadProcessor PodWorkload Workflow).

(** The watchers launched: stage, namespace and name of the pod. *)
Definition watches (tr : list Op) : list (string * string * string) :=
  omap (λ o, match o with
             | OpGoWork stage namespace name => Some (stage, namespace, name)
             | _ => None
             end) tr.

(** The pods submitted: namespace and manifest. *)
Definition creates (tr : list Op) : list (string * Pod) :=
  omap (λ o, match o with
             | OpCreatePod namespace po => Some (namespace, po)
             | _ => None
             end) tr.

(** The calls of the pod path that leave the process, and those of the
    delegation path. *)
Definition is_pod_call (o : Op) : bool :=
  match o with
  | OpBuild | OpCreatePod _ _ | OpGoWork _ _ _ | OpUpdateStagePodInfo _ _ => true
  | _ => false
  end.

Definition is_delegation_call (o : Op) : bool :=
  match o with
  | OpDelegate _ | OpGetWorkflowRun _ _ => true
  | _ => false
  end.

(** The stage is one that [Process] hands to [processDelegation], the
    delegate accepts it and the run can be read back. *)
Definition delegation_accepted (env : Env) (p : Processor) : Prop :=
  spec_Pod (stg_Spec (stg p)) = None ∧ spec_Delegation (stg_Spec (stg p)) ≠ None ∧
  delegation_Delegate env
    {| req_Stage := stg p; req_Workflow := wf p; req_WorkflowRun := wfr p |} = None ∧
  ∃ latestWfr,
    workflowRuns_Get env (wfr_Namespace (wfr p)) (wfr_Name (wfr p)) = Ok latestWfr.

(** A warning goes with a status in phase Failed or Pending. *)
Definition is_failure (phase : StatusPhase) : bool :=
  match phase with
  | StatusFailed | StatusPending => true
  | _ => false
  end.
End MoreObservations.

Section HandlerObservations.
Import handler.
Context {Meta ProjectSpec : Type}.
#[local] Abbreviation Call := (@handler.Call Meta ProjectSpec).

Definition gets (tr : list Call) : list (string * string) :=
  omap (λ c, match c with
             | CallGet namespace name => Some (namespace, name)
             | _ => None
             end) tr.

Definition updates (tr : list Call) : list (string * @Project Meta ProjectSpec) :=
  omap (λ c, match c with
             | CallUpdate namespace project => Some (namespace, project)
             | _ => None
             end) tr.

(** The conversation of [UpdateProject] with the cluster: rounds, each a
    read of the stored project followed, when the read succeeded, by the
    update of what was read under the caller's spec, annotations and
    labels.  A round after the first is started only when the round
    before ended in a conflict.  [rounds n tr outcome]: [n] rounds make
    the trace [tr], and the last one ended with [outcome]. *)
Definition may_retry (k8s : @Cluster Meta ProjectSpec) (n : nat) (last : option error) : Prop :=
  n = 0%nat ∨ ∃ err, last = Some err ∧ IsConflict k8s err = true.

Inductive rounds (k8s : @Cluster Meta ProjectSpec) (tenant pName : string)
    (project : @Project Meta ProjectSpec) : nat → list Call → option error → Prop :=
| rounds_none : rounds k8s tenant pName project 0 [] None
| rounds_get_failed n tr last err :
    rounds k8s tenant pName project n tr last →
    may_retry k8s n last →
    Projects_Get k8s tr (TenantNamespace k8s tenant) pName = Err err →
    rounds k8s tenant pName project (S n)
      (tr ++ [CallGet (TenantNamespace k8s tenant) pName]) (Some err)
| rounds_update n tr last origin :
    rounds k8s tenant pName project n tr last →
    may_retry k8s n last →
    Projects_Get k8s tr (TenantNamespace k8s tenant) pName = Ok origin →
    rounds k8s tenant pName project (S n)
      (tr ++ [CallGet (TenantNamespace k8s tenant) pName;
              CallUpdate (TenantNamespace k8s tenant) (overwrite k8s project origin)])
      (match Projects_Update k8s (tr ++ [CallGet (TenantNamespace k8s tenant) pName])
               (TenantNamespace k8s tenant) (overwrite k8s project origin) with
       | Ok _ => None
       | Err err => Some err
       end).

(** The requests of a trace that are neither a read nor an update. *)
Definition other_calls (tr : list Call) : list Call :=
  List.filter (λ c, match c with
                    | CallGet _ _ | CallUpdate _ _ => false
                    | _ => true
                    end) tr.
End HandlerObservations.

(** ** Concrete inputs *)

Module sample.
Import v1alpha1 corev1 workflowrun.

Definition run0 : WorkflowRun :=
  {| wfr_Namespace := "dev"; wfr_Name := "build-1";
     wfr_Status := {| Stages := ∅ |} |}.

(** The run as read back after the delegate has reported. *)
Definition run0_reported (phase : StatusPhase) : WorkflowRun :=
  {| wfr_Namespace := "dev"; wfr_Name := "build-1";
     wfr_Status :=
       {| Stages :=
            {[ "scan" := {| ss_Status := {| Phase := phase; Reason := "Reported";
                                           LastTransitionTime := 7; Message := "" |};
                            ss_Pod := None |} ]} |} |}.

Definition stage0 (pod : option unit) (delegation : option DelegationWorkload)
  : Stage unit :=
  {| stg_Namespace := "dev"; stg_Name := "scan";
     stg_Spec := {| spec_Pod := pod; spec_Delegation := delegation |} |}.

Definition hook : DelegationWorkload := {| URL := "http://hook" |}.

Definition processor0 (pod : option unit) (delegation : option DelegationWorkload)
  : @WorkloadProcessor unit unit :=
  {| wf := tt; wfr := run0; stg := stage0 pod delegation |}.

Definition pod0 : Pod := {| po_Namespace := "dev"; po_Name := "build-1-scan" |}.

Definition quota : error := errorString "exceeded quota".

Definition env0 (build create : result Pod) (delegate : option error)
    (get : result WorkflowRun) (write : option error) : @Env unit unit :=
  {| pod_Build := λ _ _ _, build;
     pod_ExecutionNamespace := wfr_Namespace;
     pods_Create := λ _ _, create;
     isExceededQuotaError := λ e, String.eqb (Error e) "exceeded quota";
     delegation_Delegate := λ _, delegate;
     workflowRuns_Get := λ _ _, get;
     oper_UpdateStageStatus := λ _ _, write;
     oper_UpdateStagePodInfo := λ _ _, write;
     time_Now := 42 |}.

Definition pod_stage : @WorkloadProcessor unit unit := processor0 (Some tt) None.
Definition delegated_stage : @WorkloadProcessor unit unit := processor0 None (Some hook).

(** Everything succeeds. *)
Definition env_ok : @Env unit unit := env0 (Ok pod0) (Ok pod0) None (Ok run0) None.
(** The delegate has reported [phase] by the time of the re-read. *)
Definition env_reported (phase : StatusPhase) : @Env unit unit :=
  env0 (Ok pod0) (Ok pod0) None (Ok (run0_reported phase)) None.
(** The cluster refuses the pod. *)
Definition env_refused (cause : error) : @Env unit unit :=
  env0 (Ok pod0) (Err cause) None (Ok run0) None.
(** The re-read fails. *)
Definition env_unread : @Env unit unit :=
  env0 (Ok pod0) (Ok pod0) None (Err (errorString "etcd timeout")) None.
(** The operator fails every write. *)
Definition env_conflict : @Env unit unit :=
  env0 (Ok pod0) (Ok pod0) None (Ok run0) (Some (errorString "conflict")).

(** A configuration document with no [image-resolver] key. *)
Definition quoted (s : string) : string :=
  String json.quote s +:+ String json.quote "".

Definition document : string :=
  "{" +:+ quoted "images" +:+ ":{"
      +:+ quoted "git-resolver" +:+ ":" +:+ quoted "git:v1" +:+ ","
      +:+ quoted "kv-resolver" +:+ ":" +:+ quoted "kv:v1" +:+ ","
      +:+ quoted "coordinator" +:+ ":" +:+ quoted "coordinator:v1" +:+ "},"
      +:+ quoted "pvc" +:+ ":" +:+ quoted "shared" +:+ "}".

Definition configMap0 : ConfigMap :=
  {| cm_Name := "workflow-controller-config";
     Data := {[ controller.ConfigFileKey := document ]} |}.

(** The globals of a process that has loaded nothing yet. *)
Definition globals0 : controller.Globals unit :=
  {| controller.Config :=
       {| controller.Images := ∅;
          controller.Logging := {| controller.Level := "" |};
          controller.GC := {| controller.Enabled := false;
                              controller.DelaySeconds := 0;
                              controller.RetryCount := 0 |};
          controller.Limits := {| controller.MaxWorkflowRuns := 0 |};
          controller.DefaultResourceRequirements := tt;
          controller.PVC := "";
          controller.Secret := "";
          controller.CycloneServerAddr := "" |};
     controller.LoggerLevel := "info" |}.

Definition Unmarshal0
  : string → controller.WorkflowControllerConfig unit
    → controller.WorkflowControllerConfig unit * option error :=
  json.Unmarshal (λ _ quota, (quota, None)).

Definition projects0 : list string := ["alpha"; "beta"].

(** A configuration document with the four images. *)
Definition document_full : string :=
  "{" +:+ quoted "images" +:+ ":{"
      +:+ quoted "git-resolver" +:+ ":" +:+ quoted "git:v1" +:+ ","
      +:+ quoted "image-resolver" +:+ ":" +:+ quoted "image:v1" +:+ ","
      +:+ quoted "kv-resolver" +:+ ":" +:+ quoted "kv:v1" +:+ ","
      +:+ quoted "coordinator" +:+ ":" +:+ quoted "coordinator:v1" +:+ "},"
      +:+ quoted "logging" +:+ ":{" +:+ quoted "level" +:+ ":" +:+ quoted "debug" +:+ "}}".

Definition configMap_full : ConfigMap :=
  {| cm_Name := "workflow-controller-config";
     Data := {[ controller.ConfigFileKey := document_full ]} |}.

(** The globals of a process that has loaded [document_full]. *)
Definition config_valid : controller.WorkflowControllerConfig unit :=
  {| controller.Images :=
       {[ "git-resolver" := "git:v1"; "image-resolver" := "image:v1";
          "kv-resolver" := "kv:v1"; "coordinator" := "coordinator:v1" ]};
     controller.Logging := {| controller.Level := "debug" |};
     controller.GC := {| controller.Enabled := false;
                         controller.DelaySeconds := 0;
                         controller.RetryCount := 0 |};
     controller.Limits := {| controller.MaxWorkflowRuns := 0 |};
     controller.DefaultResourceRequirements := tt;
     controller.PVC := "";
     controller.Secret := "";
     controller.CycloneServerAddr := "" |}.

Definition config_with_gc : controller.WorkflowControllerConfig unit :=
  {| controller.Images := <[ "gc" := "gc:v1" ]> (controller.Images config_valid);
     controller.Logging := controller.Logging config_valid;
     controller.GC := controller.GC config_valid;
     controller.Limits := controller.Limits config_valid;
     controller.DefaultResourceRequirements := tt;
     controller.PVC := "shared";
     controller.Secret := "";
     controller.CycloneServerAddr := "" |}.


(** A project as stored, the change a caller asks for, and a cluster that
    refuses the first update with a conflict. *)
Definition stored0 : @handler.Project string string :=
  {| handler.pj_Meta := "demo, version 7";
     handler.pj_Annotations := {[ "owner" := "ops" ]};
     handler.pj_Labels := ∅;
     handler.pj_Spec := "quota: 2" |}.

Definition change0 : @handler.Project string string :=
  {| handler.pj_Meta := "demo";
     handler.pj_Annotations := {[ "alias" := "Demo" ]};
     handler.pj_Labels := ∅;
     handler.pj_Spec := "quota: 4" |}.

Definition cluster0 : @handler.Cluster string string :=
  {| handler.Projects_Create := λ _ _ project, Ok project;
     handler.Projects_Get := λ _ _ _, Ok stored0;
     handler.Projects_Update :=
       λ tr _ project,
         if (length tr <? 2)%nat then Err (errorString "conflict") else Ok project;
     handler.Projects_Delete := λ _ _ _, None;
     handler.IsConflict := λ e, String.eqb (Error e) "conflict";
     handler.ConvertK8sError := λ e, e;
     handler.MergeMap := λ new old, new ∪ old;
     handler.TenantNamespace := λ tenant, "cyclone--" +:+ tenant;
     handler.GenerateNameModifier := λ _ _ _ project, (project, None) |}.

End sample.

(** * Properties of the workload processor *)

Section ProcessorProperties.
Import v1alpha1 corev1 workflowrun.
Context {PodWorkload Workflow : Type}.
Implicit Types (env : @Env PodWorkload Workflow)
               (p : @WorkloadProcessor PodWorkload Workflow).

#[local] Ltac unfold_calls :=
  cbv beta iota zeta delta
    [run processPod processDelegation mbind mret M_bind M_ret call
     Build Create Delegate Get Eventf UpdateStageStatus UpdateStagePodInfo GoWork];
  cbn [app].

#[local] Abbreviation request p :=
  {| req_Stage := stg p; req_Workflow := wf p; req_WorkflowRun := wfr p |}.

(** *** The trace of each path *)

Lemma processPod_build_failed env p err :
  pod_Build env (wf p) (wfr p) (stg p) = Err err →
  run (processPod env p) =
    (Some (Errorf_w "create pod manifest: " err),
     [OpBuild;
      OpEventf (wfr p) EventTypeWarning "GeneratePodSpecError"
        ("Generate pod for stage '" +:+ stg_Name (stg p) +:+ "' error: " +:+ Error err);
      OpUpdateStageStatus (stg_Name (stg p))
        {| Phase := StatusFailed; Reason := "GeneratePodError";
           LastTransitionTime := time_Now env;
           Message := "Failed to generate pod: " +:+ Error err |}]).
Proof. intros Hbuild. unfold_calls. rewrite Hbuild. reflexivity. Qed.

Lemma processPod_create_failed env p po err :
  pod_Build env (wf p) (wfr p) (stg p) = Ok po →
  pods_Create env (pod_ExecutionNamespace env (wfr p)) po = Err err →
  run (processPod env p) =
    (Some (Errorf_w "create pod: " err),
     [OpBuild;
      OpCreatePod (pod_ExecutionNamespace env (wfr p)) po;
      OpEventf (wfr p) EventTypeWarning "StagePodCreated"
        ("Create pod for stage '" +:+ stg_Name (stg p) +:+ "' error: " +:+ Error err);
      OpUpdateStageStatus (stg_Name (stg p))
        {| Phase := if isExceededQuotaError env err then StatusPending else StatusFailed;
           Reason := "CreatePodError";
           LastTransitionTime := time_Now env;
           Message := "Failed to create pod: " +:+ Error err |}]).
Proof.
  intros Hbuild Hcreate. unfold_calls. rewrite Hbuild. cbn [app].
  rewrite Hcreate. reflexivity.
Qed.

Lemma processPod_created env p po po' :
  pod_Build env (wf p) (wfr p) (stg p) = Ok po →
  pods_Create env (pod_ExecutionNamespace env (wfr p)) po = Ok po' →
  run (processPod env p) =
    (None,
     [OpBuild;
      OpCreatePod (pod_ExecutionNamespace env (wfr p)) po;
      OpEventf (wfr p) EventTypeNormal "StagePodCreated"
        ("Create pod for stage '" +:+ stg_Name (stg p) +:+ "' succeeded");
      OpGoWork (stg_Name (stg p)) (po_Namespace po') (po_Name po');
      OpUpdateStageStatus (stg_Name (stg p))
        {| Phase := StatusRunning; Reason := "StagePodCreated";
           LastTransitionTime := time_Now env; Message := "" |};
      OpUpdateStagePodInfo (stg_Name (stg p))
        {| pi_Name := po_Name po'; pi_Namespace := po_Namespace po' |}]).
Proof.
  intros Hbuild Hcreate. unfold_calls. rewrite Hbuild. cbn [app].
  rewrite Hcreate. reflexivity.
Qed.

Lemma processDelegation_failed env p d err :
  delegation_Delegate env (request p) = Some err →
  run (processDelegation env p d) =
    (Some err,
     [OpDelegate (request p);
      OpEventf (wfr p) EventTypeWarning "DelegationFailure"
        ("Delegate stage " +:+ stg_Name (stg p) +:+ " to " +:+ URL d
           +:+ " error: " +:+ Error err);
      OpUpdateStageStatus (stg_Name (stg p))
        {| Phase := StatusFailed; Reason := "DelegationFailure";
           LastTransitionTime := time_Now env;
           Message := "Delegate error: " +:+ Error err |}]).
Proof. intros Hdelegate. unfold_calls. rewrite Hdelegate. reflexivity. Qed.

Lemma processDelegation_reread_failed env p d err :
  delegation_Delegate env (request p) = None →
  workflowRuns_Get env (wfr_Namespace (wfr p)) (wfr_Name (wfr p)) = Err err →
  run (processDelegation env p d) =
    (Some err,
     [OpDelegate (request p);
      OpEventf (wfr p) EventTypeNormal "DelegationSucceed"
        ("Delegate stage " +:+ stg_Name (stg p) +:+ " to " +:+ URL d +:+ " succeeded");
      OpGetWorkflowRun (wfr_Namespace (wfr p)) (wfr_Name (wfr p))]).
Proof.
  intros Hdelegate Hget. unfold_calls. rewrite Hdelegate. cbn [app].
  rewrite Hget. reflexivity.
Qed.

Lemma processDelegation_reread env p d latestWfr :
  delegation_Delegate env (request p) = None →
  workflowRuns_Get env (wfr_Namespace (wfr p)) (wfr_Name (wfr p)) = Ok latestWfr →
  run (processDelegation env p d) =
    (None,
     [OpDelegate (request p);
      OpEventf (wfr p) EventTypeNormal "DelegationSucceed"
        ("Delegate stage " +:+ stg_Name (stg p) +:+ " to " +:+ URL d +:+ " succeeded");
      OpGetWorkflowRun (wfr_Namespace (wfr p)) (wfr_Name (wfr p))]
     ++ if reported_terminated p latestWfr then []
        else [OpUpdateStageStatus (stg_Name (stg p))
                {| Phase := StatusWaiting; Reason := "DelegationSucceed";
                   LastTransitionTime := time_Now env; Message := "" |}])%list.
Proof.
  intros Hdelegate Hget. unfold_calls. rewrite Hdelegate. cbn [app].
  rewrite Hget. unfold reported_terminated.
  destruct (Stages (wfr_Status latestWfr) !! stg_Name (stg p)) as [reported|];
    [destruct (IsPhaseTerminated (Phase (ss_Status reported)))|]; reflexivity.
Qed.

(** *** How [Process] dispatches *)

Lemma Process_pod env p :
  spec_Pod (stg_Spec (stg p)) ≠ None → spec_Delegation (stg_Spec (stg p)) = None →
  Process env p = processPod env p.
Proof.
  intros Hpod Hdelegation. unfold Process. rewrite Hdelegation.
  destruct (spec_Pod (stg_Spec (stg p))); [reflexivity | congruence].
Qed.

Lemma Process_delegation env p d :
  spec_Pod (stg_Spec (stg p)) = None → spec_Delegation (stg_Spec (stg p)) = Some d →
  Process env p = processDelegation env p d.
Proof. intros Hpod Hdelegation. unfold Process. rewrite Hpod, Hdelegation. reflexivity. Qed.

Lemma Process_both env p :
  spec_Pod (stg_Spec (stg p)) ≠ None → spec_Delegation (stg_Spec (stg p)) ≠ None →
  run (Process env p) =
    (Some (errorString
       ("exact 1 workload (pod or delegation) expected in stage '"
          +:+ stg_Namespace (stg p) +:+ "/" +:+ stg_Name (stg p) +:+ "', but got both")),
     []).
Proof.
  intros Hpod Hdelegation. unfold Process.
  destruct (spec_Pod (stg_Spec (stg p))); [|congruence].
  destruct (spec_Delegation (stg_Spec (stg p))); [reflexivity | congruence].
Qed.

Lemma Process_none env p :
  spec_Pod (stg_Spec (stg p)) = None → spec_Delegation (stg_Spec (stg p)) = None →
  run (Process env p) =
    (Some (errorString
       ("exact 1 workload (pod or delegation) expected in stage '"
          +:+ stg_Namespace (stg p) +:+ "/" +:+ stg_Name (stg p) +:+ "', but got none")),
     []).
Proof. intros Hpod Hdelegation. unfold Process. rewrite Hpod, Hdelegation. reflexivity. Qed.

(** *** Delegation *)

(** C1. When the delegation call succeeds and the run read back shows
    the stage in phase Succeeded or Failed, [processDelegation] returns
    nil and hands no status and no pod info to the operator: the
    terminal phase is not overwritten with Waiting. *)
Theorem processDelegation_keeps_terminal_phase env p d latestWfr reported :
  delegation_Delegate env (request p) = None →
  workflowRuns_Get env (wfr_Namespace (wfr p)) (wfr_Name (wfr p)) = Ok latestWfr →
  Stages (wfr_Status latestWfr) !! stg_Name (stg p) = Some reported →
  Phase (ss_Status reported) = StatusSucceeded ∨ Phase (ss_Status reported) = StatusFailed →
  (run (processDelegation env p d)).1 = None ∧
  status_writes (run (processDelegation env p d)).2 = [] ∧
  podinfo_writes (run (processDelegation env p d)).2 = [].
Proof.
  intros Hdelegate Hget Hstage Hphase.
  rewrite (processDelegation_reread env p d latestWfr Hdelegate Hget).
  assert (reported_terminated p latestWfr = true) as ->.
  { unfold reported_terminated. rewrite Hstage.
    destruct Hphase as [-> | ->]; reflexivity. }
  repeat split.
Qed.

(** C8. When the delegation call succeeds, the re-read succeeds and the
    stage is absent from the status map or in a phase that is not
    terminal, [processDelegation] records one normal event
    DelegationSucceed, then hands the operator one status, phase Waiting
    with reason DelegationSucceed, and returns nil. *)
Theorem processDelegation_sets_waiting env p d latestWfr :
  delegation_Delegate env (request p) = None →
  workflowRuns_Get env (wfr_Namespace (wfr p)) (wfr_Name (wfr p)) = Ok latestWfr →
  (∀ reported, Stages (wfr_Status latestWfr) !! stg_Name (stg p) = Some reported →
     Phase (ss_Status reported) ≠ StatusSucceeded ∧
     Phase (ss_Status reported) ≠ StatusFailed) →
  (run (processDelegation env p d)).1 = None ∧
  events (run (processDelegation env p d)).2 =
    [(EventTypeNormal, "DelegationSucceed",
      "Delegate stage " +:+ stg_Name (stg p) +:+ " to " +:+ URL d +:+ " succeeded")] ∧
  status_writes (run (processDelegation env p d)).2 =
    [(stg_Name (stg p),
      {| Phase := StatusWaiting; Reason := "DelegationSucceed";
         LastTransitionTime := time_Now env; Message := "" |})] ∧
  precedes
    (OpEventf (wfr p) EventTypeNormal "DelegationSucceed"
       ("Delegate stage " +:+ stg_Name (stg p) +:+ " to " +:+ URL d +:+ " succeeded"))
    (OpUpdateStageStatus (stg_Name (stg p))
       {| Phase := StatusWaiting; Reason := "DelegationSucceed";
          LastTransitionTime := time_Now env; Message := "" |})
    (run (processDelegation env p d)).2.
Proof.
  intros Hdelegate Hget Hphase.
  rewrite (processDelegation_reread env p d latestWfr Hdelegate Hget).
  assert (reported_terminated p latestWfr = false) as ->.
  { unfold reported_terminated.
    destruct (Stages (wfr_Status latestWfr) !! stg_Name (stg p)) as [reported|];
      [|reflexivity].
    destruct (Hphase reported eq_refl) as [Hs Hf].
    destruct (Phase (ss_Status reported)); done. }
  repeat split.
  eexists [_], [_], []. reflexivity.
Qed.

(** *** Validation *)

(** C3. For a stage whose spec has both Pod and Delegation set, and for
    one that has neither, [Process] returns a configuration error and
    its trace is empty: no status write, no pod-info write, no event. *)
Theorem Process_rejects_both_or_neither env p :
  (spec_Pod (stg_Spec (stg p)) ≠ None ∧ spec_Delegation (stg_Spec (stg p)) ≠ None) ∨
  (spec_Pod (stg_Spec (stg p)) = None ∧ spec_Delegation (stg_Spec (stg p)) = None) →
  (∃ message, (run (Process env p)).1 = Some (errorString message)) ∧
  (run (Process env p)).2 = [] ∧
  status_writes (run (Process env p)).2 = [] ∧
  podinfo_writes (run (Process env p)).2 = [] ∧
  events (run (Process env p)).2 = [].
Proof.
  intros [[Hpod Hdelegation] | [Hpod Hdelegation]].
  - rewrite (Process_both env p Hpod Hdelegation). split; [eauto | done].
  - rewrite (Process_none env p Hpod Hdelegation). split; [eauto | done].
Qed.

(** *** Pods *)

(** C6. When the pod is created, the watcher is launched for the
    created pod before the Running status (reason StagePodCreated) is
    handed to the operator, and that status before the pod info; the
    one status written is Running and the one pod info written names
    the created pod. *)
Theorem processPod_created_order env p po po' :
  pod_Build env (wf p) (wfr p) (stg p) = Ok po →
  pods_Create env (pod_ExecutionNamespace env (wfr p)) po = Ok po' →
  precedes
    (OpGoWork (stg_Name (stg p)) (po_Namespace po') (po_Name po'))
    (OpUpdateStageStatus (stg_Name (stg p))
       {| Phase := StatusRunning; Reason := "StagePodCreated";
          LastTransitionTime := time_Now env; Message := "" |})
    (run (processPod env p)).2 ∧
  precedes
    (OpUpdateStageStatus (stg_Name (stg p))
       {| Phase := StatusRunning; Reason := "StagePodCreated";
          LastTransitionTime := time_Now env; Message := "" |})
    (OpUpdateStagePodInfo (stg_Name (stg p))
       {| pi_Name := po_Name po'; pi_Namespace := po_Namespace po' |})
    (run (processPod env p)).2 ∧
  status_writes (run (processPod env p)).2 =
    [(stg_Name (stg p),
      {| Phase := StatusRunning; Reason := "StagePodCreated";
         LastTransitionTime := time_Now env; Message := "" |})] ∧
  podinfo_writes (run (processPod env p)).2 =
    [(stg_Name (stg p), {| pi_Name := po_Name po'; pi_Namespace := po_Namespace po' |})].
Proof.
  intros Hbuild Hcreate.
  rewrite (processPod_created env p po po' Hbuild Hcreate). cbn [snd].
  split_and!; [| |reflexivity..].
  - eexists [_; _; _], [], [_]. reflexivity.
  - eexists [_; _; _; _], [], []. reflexivity.
Qed.


(** *** Every path *)

Lemma Process_path env p :
  path env p (run (Process env p)).1
    (status_writes (run (Process env p)).2) (podinfo_writes (run (Process env p)).2).
Proof.
  destruct (spec_Pod (stg_Spec (stg p))) as [w|] eqn:Hpod,
           (spec_Delegation (stg_Spec (stg p))) as [d|] eqn:Hdelegation.
  - rewrite Process_both by congruence. apply path_both; congruence.
  - assert (spec_Pod (stg_Spec (stg p)) ≠ None) as Hsome by congruence.
    rewrite (Process_pod env p Hsome Hdelegation).
    destruct (pod_Build env (wf p) (wfr p) (stg p)) as [po|cause] eqn:Hbuild.
    + destruct (pods_Create env (pod_ExecutionNamespace env (wfr p)) po)
        as [po'|cause] eqn:Hcreate.
      * rewrite (processPod_created env p po po' Hbuild Hcreate).
        by apply (path_created env p po po').
      * rewrite (processPod_create_failed env p po cause Hbuild Hcreate).
        by apply (path_create_failed env p po cause).
    + rewrite (processPod_build_failed env p cause Hbuild).
      by apply path_build_failed.
  - assert (spec_Delegation (stg_Spec (stg p)) ≠ None) as Hsome by congruence.
    rewrite (Process_delegation env p d Hpod Hdelegation).
    destruct (delegation_Delegate env (request p)) as [cause|] eqn:Hdelegate.
    + rewrite (processDelegation_failed env p d cause Hdelegate).
      by apply path_delegation_failed.
    + destruct (workflowRuns_Get env (wfr_Namespace (wfr p)) (wfr_Name (wfr p)))
        as [latestWfr|cause] eqn:Hget.
      * rewrite (processDelegation_reread env p d latestWfr Hdelegate Hget).
        destruct (reported_terminated p latestWfr) eqn:Hterminated.
        -- by apply (path_terminated env p latestWfr).
        -- by apply (path_waiting env p latestWfr).
      * rewrite (processDelegation_reread_failed env p d cause Hdelegate Hget).
        by apply path_reread_failed.
  - rewrite Process_none by assumption. by apply path_none.
Qed.

(** A pod info is written on the path of a created pod, and on no other. *)
Lemma path_podinfo_created env p r statuses infos :
  path env p r statuses infos → infos ≠ [] ↔ pod_created env p.
Proof.
  unfold pod_created. intros Hpath. split.
  - destruct Hpath; try done. intros _. eauto 10.
  - intros (Hpod & Hdelegation & po1 & po1' & Hbuild & Hcreate).
    destruct Hpath; try done; congruence.
Qed.

(** That path is also the only one to write a status in phase Running. *)
Lemma path_podinfo_running env p r statuses infos :
  path env p r statuses infos →
  infos ≠ [] ↔
  ∃ status, (stg_Name (stg p), status) ∈ statuses ∧ Phase status = StatusRunning.
Proof.
  intros Hpath. split.
  - destruct Hpath; try done. intros _.
    eexists. split; [by apply list_elem_of_singleton | done].
  - intros (status & Hin & Hphase).
    destruct Hpath; try done; try (by apply elem_of_nil in Hin);
      apply list_elem_of_singleton in Hin; simplify_eq; cbn in Hphase;
      try destruct (isExceededQuotaError env cause); done.
Qed.

(** C7. Over every execution of [Process]: a pod info is handed to the
    operator exactly when the stage is a pod stage whose pod got
    created, which is exactly when a status in phase Running is handed
    to it; no execution that returns an error writes a pod info, the
    delegation path writes none, and at most one is written. *)
Theorem PodInfo_iff_Running env p :
  (podinfo_writes (run (Process env p)).2 ≠ [] ↔ pod_created env p) ∧
  (podinfo_writes (run (Process env p)).2 ≠ [] ↔
     ∃ status, (stg_Name (stg p), status) ∈ status_writes (run (Process env p)).2 ∧
               Phase status = StatusRunning) ∧
  ((run (Process env p)).1 ≠ None → podinfo_writes (run (Process env p)).2 = []) ∧
  (spec_Pod (stg_Spec (stg p)) = None → podinfo_writes (run (Process env p)).2 = []) ∧
  (length (podinfo_writes (run (Process env p)).2) ≤ 1)%nat.
Proof.
  pose proof (Process_path env p) as Hpath.
  split_and!.
  - exact (path_podinfo_created _ _ _ _ _ Hpath).
  - exact (path_podinfo_running _ _ _ _ _ Hpath).
  - by destruct Hpath.
  - by destruct Hpath.
  - destruct Hpath; cbn; lia.
Qed.

(** C5, as the code has it. When [Process] returns an error past the
    check of the workloads, the error and the status writes made before
    it are those of one of four paths.  A manifest-build failure: one
    status, phase Failed, reason GeneratePodError.  A submission failure:
    one status, reason CreatePodError, phase Pending when the quota is
    exceeded and Failed when it is not.  A delegation call failure: one
    status, phase Failed, reason DelegationFailure.  A failure of the
    re-read after a delegation: no status at all. *)
Theorem Process_error_recorded env p err :
  one_workload p →
  (run (Process env p)).1 = Some err →
  (∃ cause,
      spec_Pod (stg_Spec (stg p)) ≠ None ∧
      pod_Build env (wf p) (wfr p) (stg p) = Err cause ∧
      err = Errorf_w "create pod manifest: " cause ∧
      status_writes (run (Process env p)).2 =
        [(stg_Name (stg p),
          {| Phase := StatusFailed; Reason := "GeneratePodError";
             LastTransitionTime := time_Now env;
             Message := "Failed to generate pod: " +:+ Error cause |})]) ∨
  (∃ po cause,
      spec_Pod (stg_Spec (stg p)) ≠ None ∧
      pod_Build env (wf p) (wfr p) (stg p) = Ok po ∧
      pods_Create env (pod_ExecutionNamespace env (wfr p)) po = Err cause ∧
      err = Errorf_w "create pod: " cause ∧
      status_writes (run (Process env p)).2 =
        [(stg_Name (stg p),
          {| Phase := if isExceededQuotaError env cause then StatusPending else StatusFailed;
             Reason := "CreatePodError";
             LastTransitionTime := time_Now env;
             Message := "Failed to create pod: " +:+ Error cause |})]) ∨
  (spec_Pod (stg_Spec (stg p)) = None ∧
   delegation_Delegate env (request p) = Some err ∧
   status_writes (run (Process env p)).2 =
     [(stg_Name (stg p),
       {| Phase := StatusFailed; Reason := "DelegationFailure";
          LastTransitionTime := time_Now env;
          Message := "Delegate error: " +:+ Error err |})]) ∨
  (spec_Pod (stg_Spec (stg p)) = None ∧
   delegation_Delegate env (request p) = None ∧
   workflowRuns_Get env (wfr_Namespace (wfr p)) (wfr_Name (wfr p)) = Err err ∧
   status_writes (run (Process env p)).2 = []).
Proof.
  intros Hone. pose proof (Process_path env p) as Hpath. revert Hpath.
  generalize (run (Process env p)).1, (status_writes (run (Process env p)).2),
             (podinfo_writes (run (Process env p)).2).
  intros r statuses infos Hpath Herr.
  destruct Hpath; try discriminate; injection Herr as <-.
  - destruct Hone as [[_ ?] | [? _]]; congruence.
  - destruct Hone as [[? _] | [_ ?]]; congruence.
  - left. by exists cause.
  - right. left. by exists po, cause.
  - do 2 right. left. done.
  - do 3 right. done.
Qed.

End ProcessorProperties.

(** *** The processor on concrete inputs *)

Section ProcessorExamples.
Import v1alpha1 corev1 workflowrun sample.

Lemma processDelegation_keeps_terminal_phase_witness :
  (run (processDelegation (env_reported StatusSucceeded) delegated_stage hook)).1 = None ∧
  status_writes (run (processDelegation (env_reported StatusSucceeded) delegated_stage hook)).2
    = [] ∧
  podinfo_writes (run (processDelegation (env_reported StatusSucceeded) delegated_stage hook)).2
    = [].
Proof.
  apply (processDelegation_keeps_terminal_phase
           (env_reported StatusSucceeded) delegated_stage hook
           (run0_reported StatusSucceeded)
           {| ss_Status := {| Phase := StatusSucceeded; Reason := "Reported";
                              LastTransitionTime := 7; Message := "" |};
              ss_Pod := None |}).
  - reflexivity.
  - reflexivity.
  - vm_compute. reflexivity.
  - left. reflexivity.
Defined.

Lemma processDelegation_sets_waiting_witness :
  (run (processDelegation (env_reported StatusRunning) delegated_stage hook)).1 = None ∧
  status_writes (run (processDelegation (env_reported StatusRunning) delegated_stage hook)).2
    = [("scan", {| Phase := StatusWaiting; Reason := "DelegationSucceed";
                   LastTransitionTime := 42; Message := "" |})].
Proof.
  destruct (processDelegation_sets_waiting (env_reported StatusRunning) delegated_stage hook
              (run0_reported StatusRunning))
    as (Hnil & _ & Hwrites & _).
  - reflexivity.
  - reflexivity.
  - intros reported Hstage. vm_compute in Hstage.
    injection Hstage as <-. split; discriminate.
  - split; [exact Hnil | exact Hwrites].
Defined.

Lemma Process_rejects_both_or_neither_witness :
  (run (Process env_ok (processor0 (Some tt) (Some hook)))).2 = [] ∧
  (run (Process env_ok (processor0 None None))).2 = [].
Proof.
  split.
  - apply (Process_rejects_both_or_neither env_ok (processor0 (Some tt) (Some hook))).
    left. split; discriminate.
  - apply (Process_rejects_both_or_neither env_ok (processor0 None None)).
    right. split; reflexivity.
Defined.

Lemma processPod_created_order_witness :
  podinfo_writes (run (processPod env_conflict pod_stage)).2 =
    [("scan", {| pi_Name := "build-1-scan"; pi_Namespace := "dev" |})].
Proof.
  apply (processPod_created_order env_conflict pod_stage pod0 pod0); reflexivity.
Defined.


Lemma Process_error_recorded_witness :
  status_writes (run (Process (env_refused quota) pod_stage)).2 =
    [("scan", {| Phase := StatusPending; Reason := "CreatePodError";
                 LastTransitionTime := 42;
                 Message := "Failed to create pod: exceeded quota" |})].
Proof.
  destruct (Process_error_recorded (env_refused quota) pod_stage
              (Errorf_w "create pod: " quota))
    as [(cause & _ & Hbuild & _) |
        [(po & cause & _ & _ & Hcreate & _ & Hwrites) |
         [(Hpod & _) | (Hpod & _)]]].
  - left. split; [discriminate | reflexivity].
  - reflexivity.
  - discriminate Hbuild.
  - injection Hcreate as <-. exact Hwrites.
  - discriminate Hpod.
  - discriminate Hpod.
Defined.

(** C5 as stated fails: a delegation whose re-read fails returns the
    error of the re-read, and no status at all has been written; and a
    pod refused for exceeded quota returns the error after a status in
    phase Pending, not Failed. *)
Lemma Process_failure_not_recorded_as_Failed :
  ¬ failure_recorded env_unread delegated_stage ∧
  ¬ failure_recorded (env_refused quota) pod_stage.
Proof.
  split; intros Hrecorded.
  - destruct Hrecorded with (err := errorString "etcd timeout") as (status & Hin & _).
    + right. split; [reflexivity | discriminate].
    + reflexivity.
    + vm_compute in Hin. by apply elem_of_nil in Hin.
  - destruct Hrecorded with (err := Errorf_w "create pod: " quota)
      as (status & Hin & Hphase).
    + left. split; [discriminate | reflexivity].
    + reflexivity.
    + vm_compute in Hin. apply list_elem_of_singleton in Hin.
      injection Hin as ->. discriminate.
Qed.

(** C2. A pod the cluster refuses: one warning event is recorded, and
    its reason is StagePodCreated, the reason of the event of a created
    pod, where CreatePodError is the reason of the status written next
    (phase Failed, or Pending when the quota is exceeded). *)
Theorem processPod_create_failure_event :
  events (run (processPod (env_refused (errorString "forbidden")) pod_stage)).2
    = [("Warning", "StagePodCreated", "Create pod for stage 'scan' error: forbidden")] ∧
  status_writes (run (processPod (env_refused (errorString "forbidden")) pod_stage)).2
    = [("scan", {| Phase := StatusFailed; Reason := "CreatePodError";
                   LastTransitionTime := 42;
                   Message := "Failed to create pod: forbidden" |})] ∧
  events (run (processPod (env_refused quota) pod_stage)).2
    = [("Warning", "StagePodCreated", "Create pod for stage 'scan' error: exceeded quota")] ∧
  status_writes (run (processPod (env_refused quota) pod_stage)).2
    = [("scan", {| Phase := StatusPending; Reason := "CreatePodError";
                   LastTransitionTime := 42;
                   Message := "Failed to create pod: exceeded quota" |})].
Proof. repeat split. Qed.

End ProcessorExamples.

(** * Properties of the configuration *)

Section ConfigProperties.
Import corev1 controller.
Context {ResourceRequirements : Type}.
Variable json_Unmarshal :
  string → WorkflowControllerConfig ResourceRequirements
  → WorkflowControllerConfig ResourceRequirements * option error.
Implicit Types (cm : ConfigMap) (g : Globals ResourceRequirements).

Lemma validate_images (config : WorkflowControllerConfig ResourceRequirements) :
  validate config = true ↔
  ∀ k, k ∈ [GitResolverImage; ImageResolverImage; KvResolverImage; CoordinatorImage] →
       is_Some (Images config !! k).
Proof.
  unfold validate. generalize (Images config). intros images.
  induction [GitResolverImage; ImageResolverImage; KvResolverImage; CoordinatorImage]
    as [|k keys IH]; cbn.
  - split; [intros _ k Hin; by apply elem_of_nil in Hin | done].
  - destruct (images !! k) as [image|] eqn:Hk.
    + rewrite IH. split.
      * intros Hkeys k' [-> | Hin]%elem_of_cons; [by rewrite Hk | by apply Hkeys].
      * intros Hkeys k' Hin. apply Hkeys. by right.
    + split; [done|]. intros Hkeys.
      destruct (Hkeys k) as [image Himage]; [by left | congruence].
Qed.

(** C4, as the code has it. When [LoadConfig] returns an error, the
    level of the logger is the one before the call, and [Config] is
    the value before the call when the ConfigMap lacks the data key;
    otherwise [Config] holds what [json.Unmarshal] has left in it: the
    document is decoded into [Config] itself, and a decoding or
    validation failure does not take that back. *)
Theorem LoadConfig_failure cm g err :
  (LoadConfig json_Unmarshal cm g).1 = Some err →
  LoggerLevel (LoadConfig json_Unmarshal cm g).2 = LoggerLevel g ∧
  Config (LoadConfig json_Unmarshal cm g).2 =
    match Data cm !! ConfigFileKey with
    | None => Config g
    | Some data => (json_Unmarshal data (Config g)).1
    end.
Proof.
  unfold LoadConfig. destruct (Data cm !! ConfigFileKey) as [data|]; [|done].
  destruct (json_Unmarshal data (Config g)) as [config [e|]]; [done|].
  cbn [Config]. destruct (validate config); cbn; [discriminate | done].
Qed.

End ConfigProperties.

(** With the decoder of [json]: a document that is not JSON is refused
    before anything is stored, and the globals are as they were. *)
Lemma LoadConfig_syntax_error {ResourceRequirements : Type}
    (decode_quota : json.value → ResourceRequirements → ResourceRequirements * option error)
    (cm : corev1.ConfigMap) (g : controller.Globals ResourceRequirements) (data : string) :
  corev1.Data cm !! controller.ConfigFileKey = Some data →
  json.parse data = None →
  controller.LoadConfig (json.Unmarshal decode_quota) cm g = (Some json.SyntaxError, g).
Proof.
  intros Hdata Hparse. unfold controller.LoadConfig, json.Unmarshal.
  rewrite Hdata, Hparse. by destruct g.
Qed.

Section ConfigExamples.
Import corev1 controller sample.

Lemma LoadConfig_failure_witness :
  Config (LoadConfig Unmarshal0 configMap0 globals0).2
    = (Unmarshal0 document (Config globals0)).1.
Proof.
  apply (LoadConfig_failure Unmarshal0 configMap0 globals0
           (errorString "validate config failed")).
  vm_compute. reflexivity.
Defined.

(** C4 as stated fails: loading, into a process that has no
    configuration yet, a document without the image-resolver key
    returns the validation error, and [Config] holds the volume and the
    three images of the document. *)
Lemma LoadConfig_failure_changes_Config :
  (LoadConfig Unmarshal0 configMap0 globals0).1 = Some (errorString "validate config failed") ∧
  Config (LoadConfig Unmarshal0 configMap0 globals0).2 ≠ Config globals0 ∧
  PVC (Config (LoadConfig Unmarshal0 configMap0 globals0).2) = "shared" ∧
  Images (Config (LoadConfig Unmarshal0 configMap0 globals0).2) !! CoordinatorImage
    = Some "coordinator:v1".
Proof.
  split_and!.
  - vm_compute. reflexivity.
  - intros Hsame. apply (f_equal PVC) in Hsame. vm_compute in Hsame. discriminate.
  - vm_compute. reflexivity.
  - vm_compute. reflexivity.
Qed.

End ConfigExamples.

(** * Properties of the project handler *)

Section HandlerProperties.
Import handler.
Context {Project : Type}.
Variable TenantNamespace : string → string.
Variable Projects_List : string → result (list Project).

Lemma int64_small z : - 2 ^ 63 ≤ z < 2 ^ 63 → int64 z = z.
Proof. intros Hz. unfold int64. rewrite Z.mod_small; lia. Qed.

Lemma int64_overflow z : 2 ^ 63 ≤ z < 2 ^ 64 → int64 z = z - 2 ^ 64.
Proof.
  intros Hz. unfold int64.
  replace (z + 2 ^ 63) with (z - 2 ^ 63 + 1 * 2 ^ 64) by lia.
  rewrite Z.mod_add by lia. rewrite Z.mod_small; lia.
Qed.

(** As long as [Start + Limit] fits an [int64], [ListProjects] returns
    the total and the page from [Start] to [min (Start + Limit) n]. *)
Lemma ListProjects_page tenant query items :
  Projects_List (TenantNamespace tenant) = Ok items →
  0 ≤ Start query → 0 ≤ Limit query → Start query + Limit query < 2 ^ 63 →
  ListProjects TenantNamespace Projects_List tenant query =
    Returns (Ok (NewListResponse (Z.of_nat (length items))
      (take (Z.to_nat (Z.min (Start query + Limit query) (Z.of_nat (length items))
                       - Start query))
            (drop (Z.to_nat (Start query)) items)))).
Proof.
  intros Hlist Hstart Hlimit Hfits. unfold ListProjects. rewrite Hlist.
  destruct (Z.geb_spec (Start query) (Z.of_nat (length items))) as [Hge|Hlt].
  - rewrite drop_ge by lia. by rewrite take_nil.
  - rewrite int64_small by lia. unfold slice.
    destruct (Z.gtb_spec (Start query + Limit query) (Z.of_nat (length items))).
    + rewrite Z.min_r by lia.
      rewrite (proj2 (Z.leb_le 0 _)), (proj2 (Z.leb_le (Start query) _)),
              (proj2 (Z.leb_le (Z.of_nat (length items)) _)) by lia.
      reflexivity.
    + rewrite Z.min_l by lia.
      rewrite (proj2 (Z.leb_le 0 _)), (proj2 (Z.leb_le (Start query) _)),
              (proj2 (Z.leb_le (Start query + Limit query) _)) by lia.
      reflexivity.
Qed.

(** Past that, on a slice (whose length is an [int]), the sum wraps to
    a negative [end] and the slice expression panics. *)
Lemma ListProjects_overflow tenant query items :
  Projects_List (TenantNamespace tenant) = Ok items →
  Z.of_nat (length items) < 2 ^ 63 →
  0 ≤ Start query < Z.of_nat (length items) →
  Limit query < 2 ^ 63 → 2 ^ 63 ≤ Start query + Limit query →
  ListProjects TenantNamespace Projects_List tenant query = Panics.
Proof.
  intros Hlist Hlen Hstart Hlimit Hwraps. unfold ListProjects. rewrite Hlist.
  destruct (Z.geb_spec (Start query) (Z.of_nat (length items))); [lia|].
  rewrite int64_overflow by lia. unfold slice.
  destruct (Z.gtb_spec (Start query + Limit query - 2 ^ 64) (Z.of_nat (length items)));
    [lia|].
  rewrite (proj2 (Z.leb_le 0 _)) by lia.
  rewrite (proj2 (Z.leb_gt _ _)) by lia. reflexivity.
Qed.

End HandlerProperties.

Section HandlerExamples.
Import handler sample.

(** C10. On a list of two projects, the query with [Start = 1] and
    [Limit = 2^63 - 1], both non-negative [int64] values, makes
    [ListProjects] panic: [Start + Limit] wraps to [- 2^63], which the
    comparison with the size lets through to the slice expression.  The
    page promised is [beta] with total 2, which is what a [Limit]
    smaller by one returns. *)
Theorem ListProjects_limit_overflow :
  ListProjects id (λ _, Ok projects0) "devops" {| Start := 1; Limit := 2 ^ 63 - 1 |}
    = Panics ∧
  ListProjects id (λ _, Ok projects0) "devops" {| Start := 1; Limit := 2 ^ 63 - 2 |}
    = Returns (Ok (NewListResponse 2 ["beta"])).
Proof. split; vm_compute; reflexivity. Qed.

End HandlerExamples.

(** * Further properties of the workload processor *)

Section ProcessorFurther.
Import v1alpha1 corev1 workflowrun.
Context {PodWorkload Workflow : Type}.
Implicit Types (env : @Env PodWorkload Workflow)
               (p : @WorkloadProcessor PodWorkload Workflow).

#[local] Abbreviation request p :=
  {| req_Stage := stg p; req_Workflow := wf p; req_WorkflowRun := wfr p |}.

(** The nine executions of [Process], each with its result and trace in
    place of [run (Process env p)]. *)
#[local] Ltac process_cases env p :=
  destruct (spec_Pod (stg_Spec (stg p))) as [w|] eqn:Hpod;
  destruct (spec_Delegation (stg_Spec (stg p))) as [d|] eqn:Hdelegation;
  [ rewrite (Process_both env p) by congruence
  | rewrite (Process_pod env p) by congruence;
    destruct (pod_Build env (wf p) (wfr p) (stg p)) as [po|cause] eqn:Hbuild;
    [ destruct (pods_Create env (pod_ExecutionNamespace env (wfr p)) po)
        as [po'|cause] eqn:Hcreate;
      [ rewrite (processPod_created env p po po' Hbuild Hcreate)
      | rewrite (processPod_create_failed env p po cause Hbuild Hcreate) ]
    | rewrite (processPod_build_failed env p cause Hbuild) ]
  | rewrite (Process_delegation env p d) by congruence;
    destruct (delegation_Delegate env (request p)) as [cause|] eqn:Hdelegate;
    [ rewrite (processDelegation_failed env p d cause Hdelegate)
    | destruct (workflowRuns_Get env (wfr_Namespace (wfr p)) (wfr_Name (wfr p)))
        as [latestWfr|cause] eqn:Hget;
      [ rewrite (processDelegation_reread env p d latestWfr Hdelegate Hget);
        destruct (reported_terminated p latestWfr) eqn:Hterminated
      | rewrite (processDelegation_reread_failed env p d cause Hdelegate Hget) ] ]
  | rewrite (Process_none env p) by assumption ].

(** X1. [Process] returns nil exactly when the pod of a pod stage got
    created, or when the delegate of a delegation stage accepted the
    request and the run could be read back. *)
Theorem Process_returns_nil_iff env p :
  (run (Process env p)).1 = None ↔ pod_created env p ∨ delegation_accepted env p.
Proof.
  unfold pod_created, delegation_accepted.
  process_cases env p; cbn [fst]; split; try done;
    try (intros [(? & ? & po1 & po1' & ? & ?) | (? & ? & ? & latest & ?)]; congruence).
  - intros _. left. eauto 10.
  - intros _. right. eauto 10.
  - intros _. right. eauto 10.
Qed.

(** X2. An error from the pod path wraps what the builder or the cluster
    returned, under the prefix of the step; an error from the delegation
    path is the error of the delegate or of the re-read itself. *)
Theorem Process_error_cause env p err :
  one_workload p →
  (run (Process env p)).1 = Some err →
  (spec_Pod (stg_Spec (stg p)) ≠ None ∧
   ∃ cause, Unwrap err = Some cause ∧
     (pod_Build env (wf p) (wfr p) (stg p) = Err cause ∧
        Error err = "create pod manifest: " +:+ Error cause ∨
      ∃ po, pod_Build env (wf p) (wfr p) (stg p) = Ok po ∧
            pods_Create env (pod_ExecutionNamespace env (wfr p)) po = Err cause ∧
            Error err = "create pod: " +:+ Error cause)) ∨
  (spec_Pod (stg_Spec (stg p)) = None ∧
     (delegation_Delegate env (request p) = Some err ∨
      delegation_Delegate env (request p) = None ∧
      workflowRuns_Get env (wfr_Namespace (wfr p)) (wfr_Name (wfr p)) = Err err)).
Proof.
  intros Hone. unfold one_workload in Hone.
  process_cases env p; cbn [fst]; intros Herr; simplify_eq.
  - destruct Hone as [[_ ?] | [? _]]; done.
  - left. split; [done|]. exists cause. split; [done|]. right. eauto.
  - left. split; [done|]. exists cause. split; [done|]. by left.
  - right. split; [done|]. by left.
  - right. split; [done|]. by right.
  - destruct Hone as [[? _] | [_ ?]]; done.
Qed.

(** X3. Whatever happens, [Process] writes to the operator for its own stage
    only, stamps the status with the clock, and hands it at most one
    status and the recorder at most one event. *)
Theorem Process_writes_own_stage env p :
  Forall (λ w, w.1 = stg_Name (stg p) ∧ LastTransitionTime w.2 = time_Now env)
         (status_writes (run (Process env p)).2) ∧
  Forall (λ w, w.1 = stg_Name (stg p)) (podinfo_writes (run (Process env p)).2) ∧
  (length (status_writes (run (Process env p)).2) ≤ 1)%nat ∧
  (length (events (run (Process env p)).2) ≤ 1)%nat.
Proof.
  process_cases env p; cbn; split_and!; repeat constructor.
Qed.

(** X4. A status is never written without an event recorded before it: the
    one event of the execution, a warning when the phase written is
    Failed or Pending and a normal event otherwise. *)
Theorem Process_event_before_status env p :
  status_writes (run (Process env p)).2 = [] ∨
  ∃ eventtype reason message status,
    events (run (Process env p)).2 = [(eventtype, reason, message)] ∧
    status_writes (run (Process env p)).2 = [(stg_Name (stg p), status)] ∧
    precedes (OpEventf (wfr p) eventtype reason message)
             (OpUpdateStageStatus (stg_Name (stg p)) status)
             (run (Process env p)).2 ∧
    eventtype = if is_failure (Phase status) then EventTypeWarning else EventTypeNormal.
Proof.
  process_cases env p; cbn [snd app]; try (by left); right;
    do 4 eexists; (split_and!; [reflexivity | reflexivity | | ]).
  - eexists [_; _], [_], [_]. reflexivity.
  - reflexivity.
  - eexists [_; _], [], []. reflexivity.
  - cbn. by destruct (isExceededQuotaError env cause).
  - eexists [_], [], []. reflexivity.
  - reflexivity.
  - eexists [_], [], []. reflexivity.
  - reflexivity.
  - eexists [_], [_], []. reflexivity.
  - reflexivity.
Qed.

(** X5. The watcher is launched for the very pod whose info is written:
    same stage, namespace and name; so it is launched exactly when the
    pod got created, and never for a delegation. *)
Theorem watches_match_podinfo env p :
  watches (run (Process env p)).2 =
    (λ w, (w.1, pi_Namespace w.2, pi_Name w.2)) <$> podinfo_writes (run (Process env p)).2 ∧
  (watches (run (Process env p)).2 ≠ [] ↔ pod_created env p).
Proof.
  split.
  - process_cases env p; reflexivity.
  - rewrite <- (path_podinfo_created _ _ _ _ _ (Process_path env p)).
    process_cases env p; cbn; done.
Qed.

(** X6. No execution makes calls of both paths: a pod stage never reaches
    the delegate or reads the run back, a delegation stage never builds
    or submits a pod. *)
Theorem Process_one_path env p :
  (List.filter is_delegation_call (run (Process env p)).2 ≠ [] →
     spec_Pod (stg_Spec (stg p)) = None) ∧
  (List.filter is_pod_call (run (Process env p)).2 ≠ [] →
     spec_Delegation (stg_Spec (stg p)) = None) ∧
  (List.filter is_pod_call (run (Process env p)).2 = [] ∨
   List.filter is_delegation_call (run (Process env p)).2 = []).
Proof.
  process_cases env p; cbn; split_and!; try done; auto.
Qed.

(** X7. The cluster is asked for a pod at most once, in the namespace of the
    execution context, with the manifest the builder returned. *)
Theorem creates_built_manifest env p :
  Forall (λ c, c.1 = pod_ExecutionNamespace env (wfr p) ∧
               pod_Build env (wf p) (wfr p) (stg p) = Ok c.2)
         (creates (run (Process env p)).2) ∧
  (length (creates (run (Process env p)).2) ≤ 1)%nat.
Proof.
  process_cases env p; cbn; split; repeat constructor; done.
Qed.

(** On every path, failures included, the result of [Process] and the
    calls it makes are the same under any other answers of the
    operator. *)
Lemma Process_ignores_operator_answers env p updateStageStatus updateStagePodInfo :
  run (Process (with_operator env updateStageStatus updateStagePodInfo) p)
    = run (Process env p).
Proof.
  unfold Process, run.
  by destruct (spec_Pod (stg_Spec (stg p))), (spec_Delegation (stg_Spec (stg p))).
Qed.

End ProcessorFurther.

(** * Further properties of the configuration *)

Section ConfigFurther.
Import corev1 controller.
Context {ResourceRequirements : Type}.
Variable json_Unmarshal :
  string → WorkflowControllerConfig ResourceRequirements
  → WorkflowControllerConfig ResourceRequirements * option error.
Implicit Types (cm : ConfigMap) (g : Globals ResourceRequirements)
               (config : WorkflowControllerConfig ResourceRequirements).

Lemma has_images_spec (images : gmap string string) (keys : list string) :
  has_images images keys = true ↔ ∀ k, k ∈ keys → is_Some (images !! k).
Proof.
  induction keys as [|k keys IH]; cbn.
  - split; [intros _ k Hin; by apply elem_of_nil in Hin | done].
  - destruct (images !! k) as [image|] eqn:Hk.
    + rewrite IH. split.
      * intros Hkeys k' [-> | Hin]%elem_of_cons; [by rewrite Hk | by apply Hkeys].
      * intros Hkeys k' Hin. apply Hkeys. by right.
    + split; [done|]. intros Hkeys.
      destruct (Hkeys k) as [image Himage]; [by left | congruence].
Qed.

(** X8. [validate] accepts a configuration exactly when its images have the
    four keys git-resolver, image-resolver, kv-resolver and coordinator;
    the gc image, the volume and the secret play no part. *)
Theorem validate_iff_required_images config :
  validate config = true ↔
  is_Some (Images config !! "git-resolver") ∧
  is_Some (Images config !! "image-resolver") ∧
  is_Some (Images config !! "kv-resolver") ∧
  is_Some (Images config !! "coordinator").
Proof.
  unfold validate. rewrite has_images_spec. split.
  - intros Hkeys. split_and!; apply Hkeys; set_solver.
  - intros (Hgit & Himage & Hkv & Hcoordinator) k Hin.
    repeat (apply elem_of_cons in Hin as [-> | Hin]; [done|]).
    by apply elem_of_nil in Hin.
Qed.

(** X9. A configuration that passes [validate] still passes it with more
    images. *)
Theorem validate_monotone config config' :
  Images config ⊆ Images config' →
  validate config = true → validate config' = true.
Proof.
  unfold validate. rewrite !has_images_spec. intros Hsub Hkeys k Hin.
  destruct (Hkeys k Hin) as [image Himage].
  exists image. by eapply lookup_weaken.
Qed.

(** X10. When [LoadConfig] returns nil, the ConfigMap had the data key, the
    document decoded without error, and the globals hold the decoded
    configuration, which passes [validate], and its logging level. *)
Theorem LoadConfig_success cm g :
  (LoadConfig json_Unmarshal cm g).1 = None →
  ∃ data,
    Data cm !! ConfigFileKey = Some data ∧
    (json_Unmarshal data (Config g)).2 = None ∧
    Config (LoadConfig json_Unmarshal cm g).2 = (json_Unmarshal data (Config g)).1 ∧
    validate (Config (LoadConfig json_Unmarshal cm g).2) = true ∧
    LoggerLevel (LoadConfig json_Unmarshal cm g).2
      = Level (Logging (Config (LoadConfig json_Unmarshal cm g).2)).
Proof.
  unfold LoadConfig. destruct (Data cm !! ConfigFileKey) as [data|]; [|done].
  destruct (json_Unmarshal data (Config g)) as [config [e|]] eqn:Hdecode; [done|].
  cbn [Config]. destruct (validate config) eqn:Hvalid;
    cbn [negb fst snd InitLogger Config LoggerLevel]; [|done].
  intros _. exists data. by rewrite Hdecode.
Qed.

(** Conversely it returns nil whenever the key is there, the document
    decodes without error and the decoded configuration has the four
    images. *)
Theorem LoadConfig_nil_iff cm g :
  (LoadConfig json_Unmarshal cm g).1 = None ↔
  ∃ data, Data cm !! ConfigFileKey = Some data ∧
          (json_Unmarshal data (Config g)).2 = None ∧
          validate (json_Unmarshal data (Config g)).1 = true.
Proof.
  unfold LoadConfig. destruct (Data cm !! ConfigFileKey) as [data|].
  - destruct (json_Unmarshal data (Config g)) as [config [e|]] eqn:Hdecode;
      cbn [Config fst snd].
    + split; [done|]. intros (? & ? & He & ?); simplify_eq. by rewrite Hdecode in He.
    + destruct (validate config) eqn:Hvalid; cbn [negb fst snd]; split; try done.
      * intros _. exists data. by rewrite Hdecode.
      * intros (? & ? & ? & Hv); simplify_eq. rewrite Hdecode in Hv. cbn [fst] in Hv. congruence.
  - split; [done|]. by intros (? & ? & ?).
Qed.


Section Resolvers.
Context {ResourceType : Type}.
Variables GitResourceType ImageResourceType KVResourceType : ResourceType.

(** X11. After a load that returned nil, every resource type of
    [ResolverImageKeys] has its resolver image in the configuration. *)
Theorem LoadConfig_resolver_images cm g t k :
  (LoadConfig json_Unmarshal cm g).1 = None →
  (t, k) ∈ ResolverImageKeys GitResourceType ImageResourceType KVResourceType →
  is_Some (Images (Config (LoadConfig json_Unmarshal cm g).2) !! k).
Proof.
  intros Hnil Hin.
  assert (validate (Config (LoadConfig json_Unmarshal cm g).2) = true) as Hvalid.
  { revert Hnil. unfold LoadConfig.
    destruct (Data cm !! ConfigFileKey) as [data|]; [|done].
    destruct (json_Unmarshal data (Config g)) as [config [e|]]; [done|].
    cbn [Config]. by destruct (validate config) eqn:Hvalid. }
  unfold validate in Hvalid. rewrite has_images_spec in Hvalid.
  apply Hvalid. unfold ResolverImageKeys in Hin.
  repeat (apply elem_of_cons in Hin as [Hin | Hin]; [simplify_eq; set_solver|]).
  by apply elem_of_nil in Hin.
Qed.
End Resolvers.

End ConfigFurther.

(** The pull policy is [Always] for the value [true] of DEVELOP_MODE and
    for no other. *)
Lemma ImagePullPolicy_always_iff (Getenv : string → string) :
  controller.ImagePullPolicy Getenv = controller.PullAlways ↔
  Getenv controller.DevModeEnvName = "true".
Proof.
  unfold controller.ImagePullPolicy.
  by destruct (String.eqb_spec (Getenv controller.DevModeEnvName) "true").
Qed.

(** * Further properties of the project handler *)

Section ListProjectsFurther.
Import handler.
Context {Project : Type}.
Variable TenantNamespace : string → string.
Variable Projects_List : string → result (list Project).

(** X13. When it panics.  For a query within [int64] and a list the cluster
    returned, [ListProjects] panics exactly when [Start] lies before the
    end of the list and [Start] is negative, or [Limit] is negative, or
    their sum leaves [int64]; a failed [List] never panics. *)
Theorem ListProjects_panics_iff tenant query :
  - 2 ^ 63 ≤ Start query < 2 ^ 63 →
  - 2 ^ 63 ≤ Limit query < 2 ^ 63 →
  (∀ items, Projects_List (TenantNamespace tenant) = Ok items →
            Z.of_nat (length items) < 2 ^ 63) →
  ListProjects TenantNamespace Projects_List tenant query = Panics ↔
  ∃ items, Projects_List (TenantNamespace tenant) = Ok items ∧
           Start query < Z.of_nat (length items) ∧
           (Start query < 0 ∨ Limit query < 0 ∨ 2 ^ 63 ≤ Start query + Limit query).
Proof.
  intros Hstart Hlimit Hlen. unfold ListProjects.
  destruct (Projects_List (TenantNamespace tenant)) as [items|err].
  2: { split; [done | by intros (? & ? & _)]. }
  specialize (Hlen items eq_refl).
  destruct (Z.geb_spec (Start query) (Z.of_nat (length items))) as [Hge|Hlt].
  { split; [done|]. intros (items' & Heq & ? & _). simplify_eq. lia. }
  assert (∀ end_, slice items (Start query) end_ = None ↔
                  Start query < 0 ∨ end_ < Start query ∨ Z.of_nat (length items) < end_)
    as Hslice.
  { intros end_. unfold slice.
    destruct (Z.leb_spec 0 (Start query)), (Z.leb_spec (Start query) end_),
             (Z.leb_spec end_ (Z.of_nat (length items))); cbn; split; (done || lia). }
  set (sum := int64 (Start query + Limit query)).
  set (end_ := if sum >? Z.of_nat (length items) then Z.of_nat (length items) else sum).
  specialize (Hslice end_).
  assert (slice items (Start query) end_ = None ↔
          Start query < 0 ∨ Limit query < 0 ∨ 2 ^ 63 ≤ Start query + Limit query) as Hpanic.
  { rewrite Hslice. subst end_ sum. unfold int64.
    destruct (Z.gtb_spec ((Start query + Limit query + 2 ^ 63) mod 2 ^ 64 - 2 ^ 63)
                         (Z.of_nat (length items))) as [Hgt|Hle].
    - split; [lia|]. intros Hcases.
      destruct (Z.lt_ge_cases (Start query) 0); [lia|]. exfalso.
      destruct Hcases as [?|[?|?]]; [lia| |].
      + rewrite Z.mod_small in Hgt; lia.
      + replace (Start query + Limit query + 2 ^ 63)
          with (Start query + Limit query - 2 ^ 63 + 1 * 2 ^ 64) in Hgt by lia.
        rewrite Z.mod_add, Z.mod_small in Hgt; lia.
    - destruct (Z.lt_ge_cases (Start query) 0) as [?|Hs]; [by split; left|].
      destruct (Z.lt_ge_cases (Start query + Limit query) (2 ^ 63)) as [Hfit|Hwrap].
      + rewrite Z.mod_small in Hle |- * by lia. lia.
      + replace (Start query + Limit query + 2 ^ 63)
          with (Start query + Limit query - 2 ^ 63 + 1 * 2 ^ 64) in Hle |- * by lia.
        rewrite Z.mod_add, Z.mod_small in Hle |- * by lia. lia. }
  destruct (slice items (Start query) end_) as [page|] eqn:Hpage.
  - split; [done|]. intros (items' & Heq & _ & Hcases). simplify_eq.
    apply Hpanic in Hcases. done.
  - split; [|done]. intros _. exists items. split_and!; [done | lia | by apply Hpanic].
Qed.

(** X14. What a page holds.  With [Start] and [Limit] non-negative and their
    sum within [int64], the response carries the length of the list as
    total and, at index [i], the project at index [Start + i] of the list
    for [i < Limit], and nothing from [Limit] on. *)
Theorem ListProjects_page_items tenant query items :
  Projects_List (TenantNamespace tenant) = Ok items →
  0 ≤ Start query → 0 ≤ Limit query → Start query + Limit query < 2 ^ 63 →
  ∃ response,
    ListProjects TenantNamespace Projects_List tenant query = Returns (Ok response) ∧
    Total response = Z.of_nat (length items) ∧
    ∀ i : nat,
      Items response !! i =
        if decide (Z.of_nat i < Limit query) then items !! (Z.to_nat (Start query) + i)%nat
        else None.
Proof.
  intros Hlist Hstart Hlimit Hfits.
  rewrite (ListProjects_page _ _ _ _ _ Hlist Hstart Hlimit Hfits).
  eexists. split_and!; [reflexivity..|]. cbn [Items]. intros i.
  destruct (decide (Z.of_nat i < Limit query)) as [Hi|Hi].
  - destruct (decide (Z.to_nat (Start query) + i < length items)%nat) as [Hin|Hout].
    + rewrite lookup_take_lt by lia. by rewrite lookup_drop.
    + rewrite (lookup_ge_None_2 items) by lia.
      apply lookup_ge_None_2. rewrite length_take, length_drop. lia.
  - apply lookup_ge_None_2. rewrite length_take. lia.
Qed.

(** X15. Pages follow one another: the page of [Limit1] projects from [Start]
    and the page of [Limit2] projects from [Start + Limit1] make up the
    page of [Limit1 + Limit2] projects from [Start]. *)
Theorem ListProjects_pages_compose tenant start limit1 limit2 items :
  Projects_List (TenantNamespace tenant) = Ok items →
  0 ≤ start → 0 ≤ limit1 → 0 ≤ limit2 → start + limit1 + limit2 < 2 ^ 63 →
  ∃ page1 page2 page,
    ListProjects TenantNamespace Projects_List tenant {| Start := start; Limit := limit1 |}
      = Returns (Ok page1) ∧
    ListProjects TenantNamespace Projects_List tenant
                 {| Start := start + limit1; Limit := limit2 |}
      = Returns (Ok page2) ∧
    ListProjects TenantNamespace Projects_List tenant
                 {| Start := start; Limit := limit1 + limit2 |}
      = Returns (Ok page) ∧
    Items page = (Items page1 ++ Items page2)%list ∧
    Total page1 = Total page ∧ Total page2 = Total page.
Proof.
  intros Hlist Hstart Hlimit1 Hlimit2 Hfits.
  rewrite !(ListProjects_page _ _ _ _ _ Hlist) by (cbn; lia).
  do 3 eexists. split_and!; [reflexivity..| |reflexivity|reflexivity].
  cbn [Items Start Limit].
  set (n := Z.of_nat (length items)).
  destruct (Z.le_gt_cases n start) as [Hout|Hin].
  { rewrite !drop_ge by lia. by rewrite !take_nil. }
  destruct (Z.le_gt_cases n (start + limit1)) as [Hout1|Hin1].
  { rewrite (drop_ge items (Z.to_nat (start + limit1))) by lia.
    rewrite take_nil, app_nil_r. f_equal. lia. }
  replace (Z.to_nat (start + limit1)) with (Z.to_nat start + Z.to_nat limit1)%nat by lia.
  rewrite <- drop_drop.
  replace (Z.to_nat (Z.min (start + limit1) n - start)) with (Z.to_nat limit1) by lia.
  replace (Z.to_nat (Z.min (start + (limit1 + limit2)) n - start))
    with (Z.to_nat limit1 + Z.to_nat (Z.min (start + limit1 + limit2) n - (start + limit1)))%nat
    by lia.
  by rewrite take_take_drop.
Qed.

End ListProjectsFurther.

Section UpdateProjectFurther.
Import handler.
Context {Meta ProjectSpec : Type}.
Variable k8s : @Cluster Meta ProjectSpec.
Variables tenant pName : string.
Variable project : @Project Meta ProjectSpec.

#[local] Abbreviation ns := (TenantNamespace k8s tenant).

#[local] Ltac unfold_requests :=
  cbv beta iota zeta delta [update_once request mbind mret Handler_bind Handler_ret]; cbn [app].

(** One round from a trace that may be carried on. *)
Lemma update_once_round n tr last :
  rounds k8s tenant pName project n tr last →
  may_retry k8s n last →
  rounds k8s tenant pName project (S n)
    (update_once k8s tenant pName project tr).2
    (update_once k8s tenant pName project tr).1.
Proof.
  intros Hrounds Hretry. unfold_requests.
  destruct (Projects_Get k8s tr ns pName) as [origin|err] eqn:Hget.
  - pose proof (rounds_update k8s tenant pName project n tr last origin
                  Hrounds Hretry Hget) as Hround.
    rewrite <- (assoc_L (++)). cbn [app].
    destruct (Projects_Update k8s (tr ++ [CallGet ns pName]) ns
                (overwrite k8s project origin)); exact Hround.
  - exact (rounds_get_failed k8s tenant pName project n tr last err Hrounds Hretry Hget).
Qed.

(** The retries carry a conversation on by [steps] rounds at most, stop
    at the first round that does not end in a conflict, and return the
    outcome of the last round. *)
Lemma RetryOnConflict_rounds steps n tr last :
  rounds k8s tenant pName project n tr last →
  may_retry k8s n last →
  ∃ m, (m ≤ steps)%nat ∧ (m = 0%nat → steps = 0%nat) ∧
       rounds k8s tenant pName project (n + m)
         (RetryOnConflict k8s steps last (update_once k8s tenant pName project) tr).2
         (RetryOnConflict k8s steps last (update_once k8s tenant pName project) tr).1 ∧
       ((m < steps)%nat →
          ∀ err, (RetryOnConflict k8s steps last
                    (update_once k8s tenant pName project) tr).1 = Some err →
                 IsConflict k8s err = false).
Proof.
  revert n tr last. induction steps as [|steps IH]; intros n tr last Hrounds Hretry.
  - exists 0%nat. rewrite Nat.add_0_r. split_and!; [lia | done | done | lia].
  - pose proof (update_once_round n tr last Hrounds Hretry) as Hround.
    cbn [RetryOnConflict]. cbv beta iota zeta delta [mbind mret Handler_bind Handler_ret].
    destruct (update_once k8s tenant pName project tr) as [[err|] tr1]; cbn [fst snd] in *.
    + destruct (IsConflict k8s err) eqn:Hconflict.
      * destruct (IH (S n) tr1 (Some err) Hround) as (m & Hm & _ & Hrounds' & Hstop).
        { right. eauto. }
        exists (S m). rewrite Nat.add_succ_r.
        split_and!; [lia | done | done |]. intros Hlt. apply Hstop. lia.
      * exists 1%nat. rewrite Nat.add_1_r.
        split_and!; [lia | done | done |]. intros _ e He. cbn [fst] in He. congruence.
    + exists 1%nat. rewrite Nat.add_1_r. split_and!; [lia | done | done | done].
Qed.

(** X16. [UpdateProject] talks to the cluster in one to five rounds, each a
    fresh read followed by the update of what was read; it goes on to
    another round only after a conflict, and it returns the project it
    was given when the last round was accepted, the converted error of
    the last round otherwise. *)
Theorem UpdateProject_protocol :
  ∃ n outcome,
    (1 ≤ n ≤ 5)%nat ∧
    rounds k8s tenant pName project n
      (serve (UpdateProject k8s tenant pName project)).2 outcome ∧
    (serve (UpdateProject k8s tenant pName project)).1 =
      match outcome with
      | None => (Some project, None)
      | Some err => (None, ConvertK8sError k8s (Some err))
      end ∧
    ((n < 5)%nat → ∀ err, outcome = Some err → IsConflict k8s err = false).
Proof.
  destruct (RetryOnConflict_rounds DefaultRetry_Steps 0 [] None)
    as (m & Hm & Hzero & Hrounds & Hstop); [constructor | by left |].
  unfold serve, UpdateProject. cbv beta iota zeta delta [mbind mret Handler_bind Handler_ret].
  destruct (RetryOnConflict k8s DefaultRetry_Steps None
              (update_once k8s tenant pName project) []) as [outcome tr] eqn:Hretry.
  cbn [fst snd Nat.add] in *. exists m, outcome.
  assert (m ≠ 0)%nat by (intros ->; by specialize (Hzero eq_refl)).
  unfold DefaultRetry_Steps in *.
  destruct outcome as [err|]; cbn [fst snd]; split_and!; try done; lia.
Qed.

Lemma rounds_counts n tr outcome :
  rounds k8s tenant pName project n tr outcome →
  length (gets tr) = n ∧ (length (updates tr) ≤ n)%nat ∧
  Forall (λ g, g = (ns, pName)) (gets tr) ∧
  Forall (λ u, u.1 = ns ∧ pj_Spec u.2 = pj_Spec project) (updates tr) ∧
  other_calls tr = [].
Proof.
  induction 1 as [|n tr last err _ (Hgets & Hupdates & Hget & Hupdate & Hother) _ _
                  |n tr last origin _ (Hgets & Hupdates & Hget & Hupdate & Hother) _ _].
  - split_and!; (done || constructor).
  - unfold gets, updates, other_calls in *.
    rewrite !omap_app, !length_app, List.filter_app, Hother. cbn.
    rewrite ?Forall_app, ?app_nil_r.
    split_and!; try done; try lia; by repeat constructor.
  - unfold gets, updates, other_calls in *.
    rewrite !omap_app, !length_app, List.filter_app, Hother. cbn.
    rewrite ?Forall_app, ?app_nil_r.
    split_and!; try done; try lia; by repeat constructor.
Qed.

(** X17. [UpdateProject] sends the cluster nothing but reads and updates of
    the named project in the tenant's namespace: five reads at most, no
    more updates than reads, and every update carries the spec of the
    project it was given. *)
Theorem UpdateProject_bounded :
  (length (gets (serve (UpdateProject k8s tenant pName project)).2) ≤ 5)%nat ∧
  (length (updates (serve (UpdateProject k8s tenant pName project)).2)
     ≤ length (gets (serve (UpdateProject k8s tenant pName project)).2))%nat ∧
  Forall (λ g, g = (ns, pName)) (gets (serve (UpdateProject k8s tenant pName project)).2) ∧
  Forall (λ u, u.1 = ns ∧ pj_Spec u.2 = pj_Spec project)
         (updates (serve (UpdateProject k8s tenant pName project)).2) ∧
  other_calls (serve (UpdateProject k8s tenant pName project)).2 = [].
Proof.
  destruct (RetryOnConflict_rounds DefaultRetry_Steps 0 [] None)
    as (m & Hm & _ & Hrounds & _); [constructor | by left |].
  apply rounds_counts in Hrounds as (Hgets & Hupdates & Hget & Hupdate & Hother).
  unfold serve, UpdateProject. cbv beta iota zeta delta [mbind mret Handler_bind Handler_ret].
  destruct (RetryOnConflict k8s DefaultRetry_Steps None
              (update_once k8s tenant pName project) []) as [[err|] tr];
    cbn [fst snd Nat.add] in *; unfold DefaultRetry_Steps in *;
    split_and!; (done || lia).
Qed.

(** X18. A project is returned only after the cluster accepted an update, the
    last request of the conversation; the project returned is the one
    [UpdateProject] was given, not the one the cluster stored. *)
Theorem UpdateProject_returns_argument returned :
  (serve (UpdateProject k8s tenant pName project)).1.1 = Some returned →
  returned = project ∧
  ∃ tr origin stored,
    (serve (UpdateProject k8s tenant pName project)).2 =
      (tr ++ [CallGet ns pName; CallUpdate ns (overwrite k8s project origin)])%list ∧
    Projects_Get k8s tr ns pName = Ok origin ∧
    Projects_Update k8s (tr ++ [CallGet ns pName]) ns (overwrite k8s project origin)
      = Ok stored.
Proof.
  destruct (RetryOnConflict_rounds DefaultRetry_Steps 0 [] None)
    as (m & _ & Hzero & Hrounds & _); [constructor | by left |].
  unfold serve, UpdateProject. cbv beta iota zeta delta [mbind mret Handler_bind Handler_ret].
  destruct (RetryOnConflict k8s DefaultRetry_Steps None
              (update_once k8s tenant pName project) []) as [[err|] tr];
    cbn [fst snd Nat.add] in *; [done|].
  intros [= <-]. split; [done|].
  destruct m as [|m]; [by specialize (Hzero eq_refl)|].
  inversion Hrounds as [| |n tr0 last origin _ _ Hget Hn Htr Houtcome]; subst.
  destruct (Projects_Update k8s (tr0 ++ [CallGet ns pName]) ns (overwrite k8s project origin))
    as [stored|] eqn:Hstored; [|done].
  by exists tr0, origin, stored.
Qed.

End UpdateProjectFurther.

(** * The further properties on concrete inputs *)

Section FurtherExamples.
Import v1alpha1 corev1 workflowrun controller handler sample.

Lemma Process_error_cause_witness :
  ∃ cause, Unwrap (Errorf_w "create pod: " quota) = Some cause ∧
           Error (Errorf_w "create pod: " quota) = "create pod: " +:+ Error cause.
Proof.
  destruct (Process_error_cause (env_refused quota) pod_stage (Errorf_w "create pod: " quota))
    as [(_ & cause & Hunwrap & [[Hbuild _] | (po & _ & _ & Hmessage)]) | (Hpod & _)].
  - left. split; [discriminate | reflexivity].
  - reflexivity.
  - discriminate Hbuild.
  - exists cause. split; [exact Hunwrap | exact Hmessage].
  - discriminate Hpod.
Defined.

Lemma validate_monotone_witness : validate config_with_gc = true.
Proof.
  apply (validate_monotone config_valid config_with_gc).
  - apply insert_subseteq. vm_compute. reflexivity.
  - vm_compute. reflexivity.
Defined.

Lemma LoadConfig_success_witness :
  validate (Config (LoadConfig Unmarshal0 configMap_full globals0).2) = true ∧
  LoggerLevel (LoadConfig Unmarshal0 configMap_full globals0).2 = "debug".
Proof.
  destruct (LoadConfig_success Unmarshal0 configMap_full globals0)
    as (data & _ & _ & _ & Hvalid & Hlevel).
  - vm_compute. reflexivity.
  - split; [exact Hvalid|]. rewrite Hlevel. vm_compute. reflexivity.
Defined.

Lemma LoadConfig_resolver_images_witness :
  is_Some (Images (Config (LoadConfig Unmarshal0 configMap_full globals0).2)
             !! ImageResolverImage).
Proof.
  apply (LoadConfig_resolver_images Unmarshal0 "Git" "Image" "KV"
           configMap_full globals0 "Image" ImageResolverImage).
  - vm_compute. reflexivity.
  - unfold ResolverImageKeys. do 1 apply list_elem_of_further. apply list_elem_of_here.
Defined.


Lemma ListProjects_panics_iff_witness :
  ListProjects id (λ _, Ok projects0) "devops" {| Start := -1; Limit := 10 |} = Panics.
Proof.
  apply (ListProjects_panics_iff id (λ _, Ok projects0) "devops" {| Start := -1; Limit := 10 |}).
  - cbn. lia.
  - cbn. lia.
  - intros items [= <-]. cbn. lia.
  - exists projects0. cbn. split_and!; [reflexivity | lia | left; lia].
Defined.

Lemma ListProjects_page_items_witness :
  ∃ response,
    ListProjects id (λ _, Ok projects0) "devops" {| Start := 1; Limit := 5 |}
      = Returns (Ok response) ∧
    Total response = 2 ∧ Items response !! 0%nat = Some "beta" ∧
    Items response !! 1%nat = None.
Proof.
  destruct (ListProjects_page_items id (λ _, Ok projects0) "devops"
              {| Start := 1; Limit := 5 |} projects0)
    as (response & Hreturns & Htotal & Hitems).
  - reflexivity.
  - cbn. lia.
  - cbn. lia.
  - cbn. lia.
  - exists response. split_and!; [exact Hreturns | exact Htotal | |].
    + rewrite Hitems. reflexivity.
    + rewrite Hitems. reflexivity.
Defined.

Lemma ListProjects_pages_compose_witness :
  ∃ page1 page2 page,
    ListProjects id (λ _, Ok projects0) "devops" {| Start := 0; Limit := 1 |}
      = Returns (Ok page1) ∧
    ListProjects id (λ _, Ok projects0) "devops" {| Start := 0 + 1; Limit := 1 |}
      = Returns (Ok page2) ∧
    ListProjects id (λ _, Ok projects0) "devops" {| Start := 0; Limit := 1 + 1 |}
      = Returns (Ok page) ∧
    Items page = (Items page1 ++ Items page2)%list ∧
    Total page1 = Total page ∧ Total page2 = Total page.
Proof.
  apply (ListProjects_pages_compose id (λ _, Ok projects0) "devops" 0 1 1 projects0);
    [reflexivity | lia..].
Defined.

Lemma UpdateProject_returns_argument_witness :
  ∃ tr origin stored,
    (serve (UpdateProject cluster0 "devops" "demo" change0)).2 =
      (tr ++ [CallGet "cyclone--devops" "demo";
              CallUpdate "cyclone--devops" (overwrite cluster0 change0 origin)])%list ∧
    Projects_Get cluster0 tr "cyclone--devops" "demo" = Ok origin ∧
    Projects_Update cluster0 (tr ++ [CallGet "cyclone--devops" "demo"]) "cyclone--devops"
      (overwrite cluster0 change0 origin) = Ok stored.
Proof.
  apply (UpdateProject_returns_argument cluster0 "devops" "demo" change0 change0).
  vm_compute. reflexivity.
Defined.

End FurtherExamples.
